(* Verification of the avpipe session and I/O bridging layer.

   Shallow embedding of:
   - the Go I/O callback dispatcher (gHandlers / gHandleNum / gFd and the
     exported AVPipe* functions of the avpipe Go package),
   - the legacy Go dispatcher avpipe_handler.go (slot id formula),
   - the C glue of avpipe.c (in_read_packet, out_write_packet, the
     transcoding table tx_table and tx_init),
   - the C test program's UDP reader and its input/output callbacks
     (udp_thread_func, in_read_packet, out_opener),
   - the live Go UDP recorder readUdp. *)

From Stdlib Require Import ZArith Lia List Bool String Ascii Sorting.Sorted.
From stdpp Require Import base gmap list strings.
Import ListNotations.

Open Scope Z_scope.

(* ------------------------------------------------------------------ *)
(* Machine integers                                                     *)
(* ------------------------------------------------------------------ *)

Definition wrap64 (z : Z) : Z := (z + 2 ^ 63) mod 2 ^ 64 - 2 ^ 63.
Definition wrap32 (z : Z) : Z := (z + 2 ^ 31) mod 2 ^ 32 - 2 ^ 31.
(* conversion of a signed value to uint32_t *)
Definition to_u32 (z : Z) : Z := z mod 2 ^ 32.
Definition INT64_MAX : Z := 2 ^ 63 - 1.


(* ------------------------------------------------------------------ *)
(* The Go I/O dispatcher (package avpipe, avpipe.go)                   *)
(* ------------------------------------------------------------------ *)

Module GoIO.

(* Backends are opaque: an input handler and output handlers are named
   by identifiers chosen by the opener. *)
Record ioHandler := mkIOHandler {
  input : Z;                    (* InputHandler *)
  outTable : gmap Z Z           (* map[int64]OutputHandler *)
}.

(* map[int64]*ioHandler: a key may be present with a nil value
   (AVPipeCloseInput stores nil), hence option ioHandler. *)
Record state := mkState {
  gHandlers : gmap Z (option ioHandler);
  gHandleNum : Z;
  gFd : Z
}.

Definition init_state : state := mkState ∅ 0 0.

(* h := gHandlers[fd]: the zero value nil when absent *)
Definition get (st : state) (fd : Z) : option ioHandler :=
  match gHandlers st !! fd with
  | Some (Some h) => Some h
  | _ => None
  end.

(* Result of an opener / backend call as seen by the dispatcher *)
Inductive open_result := OpenOk (id : Z) | OpenErr.

(* NewIOHandler: [openers_set] says whether an input and an output opener
   are known for the url; [opened] is the result of urlInputOpener.Open. *)
Definition NewIOHandler (openers_set : bool) (opened : open_result)
    (st : state) : Z * state :=
  if negb openers_set then (-1, st) else
  let fd := wrap64 (gHandleNum st + 1) in
  let st1 := mkState (gHandlers st) fd (gFd st) in
  match opened with
  | OpenErr => (-1, st1)
  | OpenOk inp =>
      (fd, mkState (<[fd := Some (mkIOHandler inp ∅)]> (gHandlers st1))
                   (gHandleNum st1) (gFd st1))
  end.

(* AVPipeCloseInput: [close_err] says whether input.Close() failed *)
Definition AVPipeCloseInput (fd : Z) (close_err : bool) (st : state)
    : Z * state :=
  match get st fd with
  | None => (-1, st)
  | Some _ =>
      let st' := mkState (<[fd := None]> (gHandlers st)) (gHandleNum st) (gFd st) in
      (if close_err then -1 else 0, st')
  end.

(* AVPipeReadInput: the backend's Read returns (n, err) *)
Definition AVPipeReadInput (fd : Z) (n : Z) (err : bool) (st : state) : Z :=
  match get st fd with
  | None => -1
  | Some _ => if err then -1 else n
  end.

(* AVPipeSeekInput, AVPipeStatInput: backend result (n, err) *)
Definition AVPipeSeekInput (fd : Z) (n : Z) (err : bool) (st : state) : Z :=
  match get st fd with
  | None => -1
  | Some _ => if err then -1 else wrap64 n
  end.

Definition AVPipeStatInput (fd : Z) (err : bool) (st : state) : Z :=
  match get st fd with
  | None => -1
  | Some _ => if err then -1 else 0
  end.

(* The output kinds accepted by AVPipeOpenOutput (C.avpipe_* constants) *)
Inductive stream_type :=
  | avpipe_video_init_stream | avpipe_audio_init_stream | avpipe_manifest
  | avpipe_video_segment | avpipe_audio_segment | avpipe_master_m3u
  | avpipe_video_m3u | avpipe_audio_m3u | avpipe_aes_128_key
  | avpipe_mp4_stream | avpipe_fmp4_stream | avpipe_mp4_segment
  | avpipe_fmp4_segment
  | avpipe_other_type (code : Z).   (* any value outside the switch *)

Definition valid_type (t : stream_type) : bool :=
  match t with avpipe_other_type _ => false | _ => true end.

(* AVPipeOpenOutput: gFd is incremented under the lock before the type
   switch; the output opener's result is [opened]. *)
Definition AVPipeOpenOutput (handler : Z) (stream_index seg_index : Z)
    (t : stream_type) (opened : open_result) (st : state) : Z * state :=
  match get st handler with
  | None => (-1, st)
  | Some h =>
      let fd := wrap64 (gFd st + 1) in
      let st1 := mkState (gHandlers st) (gHandleNum st) fd in
      if negb (valid_type t) then (-1, st1) else
      match opened with
      | OpenErr => (-1, st1)
      | OpenOk o =>
          let h' := mkIOHandler (input h) (<[fd := o]> (outTable h)) in
          (fd, mkState (<[handler := Some h']> (gHandlers st1))
                       (gHandleNum st1) (gFd st1))
      end
  end.

(* Outcome of a Go call that may panic *)
Inductive go_ret := Ret (r : Z) | Panic.

(* AVPipeWriteOutput: backend Write returns (n, err) *)
Definition AVPipeWriteOutput (handler fd : Z) (n : Z) (err : bool)
    (st : state) : go_ret :=
  match get st handler with
  | None => Ret (-1)
  | Some h =>
      match outTable h !! fd with
      | None => Panic
      | Some _ => if err then Ret (-1) else Ret (wrap32 n)
      end
  end.

Definition AVPipeSeekOutput (handler fd : Z) (n : Z) (err : bool)
    (st : state) : Z :=
  match get st handler with
  | None => -1
  | Some _ => if err then -1 else wrap32 n
  end.

Definition AVPipeCloseOutput (handler fd : Z) (err : bool) (st : state) : Z :=
  match get st handler with
  | None => -1
  | Some _ => if err then -1 else 0
  end.

Definition AVPipeStatOutput (handler fd : Z) (err : bool) (st : state) : Z :=
  match get st handler with
  | None => -1
  | Some h =>
      match outTable h !! fd with
      | None => -1                       (* OutStat nil handler error *)
      | Some _ => if err then -1 else 0
      end
  end.

(* Registry operations: NewIOHandler (register) and AVPipeCloseInput
   (unregister). *)
Inductive reg_op :=
  | OpNew (openers_set : bool) (opened : open_result)
  | OpClose (fd : Z) (close_err : bool).

Definition reg_step (o : reg_op) (st : state) : Z * state :=
  match o with
  | OpNew os op => NewIOHandler os op st
  | OpClose fd e => AVPipeCloseInput fd e st
  end.

(* Handles returned by the successful NewIOHandler calls of [o] *)
Definition issued (o : reg_op) (r : Z) : list Z :=
  match o with
  | OpNew true (OpenOk _) => [r]
  | _ => []
  end.

Fixpoint run (ops : list reg_op) (st : state) : list Z * state :=
  match ops with
  | [] => ([], st)
  | o :: ops' =>
      let '(r, st1) := reg_step o st in
      let '(hs, st2) := run ops' st1 in
      (issued o r ++ hs, st2)
  end.

(* The dispatcher entry points that take a session handle *)
Inductive call :=
  | CReadInput (n : Z) (err : bool)
  | CSeekInput (n : Z) (err : bool)
  | CStatInput (err : bool)
  | CCloseInput (err : bool)
  | COpenOutput (stream_index seg_index : Z) (t : stream_type) (opened : open_result)
  | CWriteOutput (fd n : Z) (err : bool)
  | CSeekOutput (fd n : Z) (err : bool)
  | CCloseOutput (fd : Z) (err : bool)
  | CStatOutput (fd : Z) (err : bool).

Definition dispatch (h : Z) (c : call) (st : state) : go_ret :=
  match c with
  | CReadInput n e => Ret (AVPipeReadInput h n e st)
  | CSeekInput n e => Ret (AVPipeSeekInput h n e st)
  | CStatInput e => Ret (AVPipeStatInput h e st)
  | CCloseInput e => Ret (fst (AVPipeCloseInput h e st))
  | COpenOutput si sg t op => Ret (fst (AVPipeOpenOutput h si sg t op st))
  | CWriteOutput fd n e => AVPipeWriteOutput h fd n e st
  | CSeekOutput fd n e => Ret (AVPipeSeekOutput h fd n e st)
  | CCloseOutput fd e => Ret (AVPipeCloseOutput h fd e st)
  | CStatOutput fd e => Ret (AVPipeStatOutput h fd e st)
  end.

(* Well-formedness of a reachable registry: every key lies in
   1..gHandleNum. *)
Definition wf (st : state) : Prop :=
  0 <= gHandleNum st /\
  forall k v, gHandlers st !! k = Some v -> 1 <= k <= gHandleNum st.

End GoIO.

(* ------------------------------------------------------------------ *)
(* The C glue of avpipe.c                                               *)
(* ------------------------------------------------------------------ *)

Module CGlue.
Import GoIO.

(* The byte counters of an ioctx_t touched by the callbacks *)
Record ioctx := mkIoctx {
  read_bytes : Z; read_pos : Z; written_bytes : Z; write_pos : Z
}.

(* in_read_packet: the session handle [h] is the one stored in
   inctx->opaque; the backend's Read returns (n, err). *)
Definition in_read_packet (st : state) (h : Z) (n : Z) (err : bool)
    (c : ioctx) : Z * ioctx :=
  let r := AVPipeReadInput h n err st in
  let c' := if r >? 0
            then mkIoctx (read_bytes c + r) (read_pos c + r)
                         (written_bytes c) (write_pos c)
            else c in
  (if r >? 0 then r else -1, c').

(* out_write_packet: [fd] is the slot id stored in outctx->opaque; the
   backend's Write returns (n, err). *)
Definition out_write_packet (st : state) (h fd : Z) (buf_size : Z)
    (n : Z) (err : bool) (c : ioctx) : go_ret * ioctx :=
  match AVPipeWriteOutput h fd n err st with
  | Panic => (Panic, c)
  | Ret bwritten =>
      let c' := if bwritten >=? 0
                then mkIoctx (read_bytes c) (read_pos c)
                             (written_bytes c + bwritten) (write_pos c + bwritten)
                else c in
      (Ret buf_size, c')
  end.

(* --- the transcoding table --- *)

Definition MAX_TX : nat := 128.

Record txctx_entry := mkEntry {
  handle : Z;        (* int32_t handle *)
  txctx : Z;         (* the transcoding context, by identity *)
  ctx_index : Z      (* txctx->index *)
}.

Definition tx_table := list (option txctx_entry).

Definition empty_table : tx_table := repeat None MAX_TX.

(* first i with tx_table[i] == NULL *)
Fixpoint first_free (tbl : tx_table) : option nat :=
  match tbl with
  | [] => None
  | None :: _ => Some 0%nat
  | Some _ :: tbl' => option_map S (first_free tbl')
  end.

(* first i with tx_table[i] != NULL && tx_table[i]->handle == h *)
Fixpoint find_handle (h : Z) (tbl : tx_table) : option (nat * txctx_entry) :=
  match tbl with
  | [] => None
  | Some e :: tbl' =>
      if Z.eqb (handle e) h then Some (0%nat, e)
      else option_map (fun '(i, e') => (S i, e')) (find_handle h tbl')
  | None :: tbl' => option_map (fun '(i, e') => (S i, e')) (find_handle h tbl')
  end.

(* tx_table_put: [r] is the value returned by rand() *)
Definition tx_table_put (r : Z) (ctx : Z) (tbl : tx_table) : Z * tx_table :=
  match first_free tbl with
  | None => (-1, tbl)
  | Some i =>
      let h0 := wrap32 r in
      let h := if h0 <? 0 then wrap32 (-1 * h0) else h0 in
      (h, <[i := Some (mkEntry h ctx (Z.of_nat i))]> tbl)
  end.

Definition tx_table_find (h : Z) (tbl : tx_table) : option txctx_entry :=
  option_map snd (find_handle h tbl).

Definition tx_table_free (h : Z) (tbl : tx_table) : tx_table :=
  match find_handle h tbl with
  | None => tbl
  | Some (i, e) => if Z.eqb (ctx_index e) (Z.of_nat i) then <[i := None]> tbl else tbl
  end.

(* tx_table_cancel: 0 when the handle is absent or found consistent *)
Definition tx_table_cancel (h : Z) (tbl : tx_table) : Z :=
  match find_handle h tbl with
  | None => 0
  | Some (i, e) => if Z.eqb (ctx_index e) (Z.of_nat i) then 0 else -1
  end.

(* --- tx_init --- *)

Record cstate := mkCState {
  go : state;             (* the Go dispatcher *)
  table : tx_table        (* tx_table *)
}.

(* What tx_init leaves behind besides its return value *)
Record init_outcome := mkOutcome {
  ret : Z;                (* the int32_t returned *)
  after : cstate;
  input_handle : Z;       (* the handle stored in inctx->opaque (0 if unset) *)
  closer_called : bool;   (* in_handlers->avpipe_closer(inctx) *)
  fini_called : bool      (* avpipe_fini(&txctx) *)
}.

(* in_closer: closes the Go input of the handle in inctx->opaque *)
Definition in_closer (h : Z) (close_err : bool) (st : state) : state :=
  snd (AVPipeCloseInput h close_err st).

(* tx_init with its environment made explicit: [filename_ok] is
   (filename && filename[0]), [openers_set]/[opened] drive NewIOHandler,
   [init_ok] is avpipe_init's success, [r] is rand(), [ctx] the new
   txctx. *)
Definition tx_init (filename_ok openers_set : bool) (opened : open_result)
    (init_ok : bool) (r ctx : Z) (close_err : bool) (cs : cstate)
    : init_outcome :=
  if negb filename_ok then mkOutcome (-1) cs 0 false false else
  (* in_opener *)
  let '(h, st1) := NewIOHandler openers_set opened (go cs) in
  let opaque := if h <=? 0 then 0 else h in
  let end_tx_init st := mkOutcome (-1) (mkCState (in_closer opaque close_err st) (table cs))
                                  opaque true true in
  if h <=? 0 then end_tx_init st1 else
  if negb init_ok then end_tx_init st1 else
  let '(p, tbl') := tx_table_put r ctx (table cs) in
  (* uint32_t handle = tx_table_put(txctx); the test handle < 0 is on an
     unsigned value *)
  let handle_u := to_u32 p in
  if handle_u <? 0 then end_tx_init st1 else
  mkOutcome (wrap32 handle_u) (mkCState st1 tbl') opaque false false.

End CGlue.

(* ------------------------------------------------------------------ *)
(* The legacy Go dispatcher avpipe_handler.go: slot id formula          *)
(* ------------------------------------------------------------------ *)

Module LegacyIO.

(* fd := int(seg_index-1)*2 + int(stream_index); returned as C.int(fd) *)
Definition slot_id (stream_index seg_index : Z) : Z :=
  wrap32 ((seg_index - 1) * 2 + stream_index).

End LegacyIO.

(* ------------------------------------------------------------------ *)
(* Slot ids of the Go dispatcher over interleaved operations           *)
(* ------------------------------------------------------------------ *)

Module GoSlots.
Import GoIO.

Inductive go_op :=
  | GReg (o : reg_op)
  | GOpen (handler stream_index seg_index : Z) (t : stream_type) (opened : open_result).

Definition go_step (o : go_op) (st : state) : Z * state :=
  match o with
  | GReg r => reg_step r st
  | GOpen h si sg t op => AVPipeOpenOutput h si sg t op st
  end.

(* slot ids handed out: the non-negative results of AVPipeOpenOutput *)
Definition slot_of (o : go_op) (r : Z) : list Z :=
  match o with
  | GOpen _ _ _ _ _ => if 0 <=? r then [r] else []
  | GReg _ => []
  end.

Fixpoint run_go (ops : list go_op) (st : state) : list Z * state :=
  match ops with
  | [] => ([], st)
  | o :: ops' =>
      let '(r, st1) := go_step o st in
      let '(ids, st2) := run_go ops' st1 in
      (slot_of o r ++ ids, st2)
  end.

End GoSlots.

(* ------------------------------------------------------------------ *)
(* The C test program: UDP channel reader (in_read_packet, udp branch)  *)
(* ------------------------------------------------------------------ *)

Module UdpAdapter.

Definition packet := list Byte.byte.

(* The fields of ioctx_t used by the udp branch; read_bytes/read_pos are
   counters only and are left out. *)
Record rstate := mkR {
  cur_packet : option packet;
  cur_pread : nat;
  udp_channel : list packet      (* queued datagrams, oldest first *)
}.

Definition init (q : list packet) : rstate := mkR None 0 q.

(* in_read_packet on a udp input; None stands for the -1 returned when
   elv_channel_timed_receive times out on an empty channel. *)
Definition in_read_packet (buf_size : nat) (c : rstate) : option packet * rstate :=
  match cur_packet c with
  | Some p =>
      let rem := (length p - cur_pread c)%nat in
      let r := if Nat.ltb rem buf_size then rem else buf_size in
      let out := firstn r (skipn (cur_pread c) p) in
      let pread := (cur_pread c + r)%nat in
      if Nat.eqb pread (length p)
      then (Some out, mkR None 0 (udp_channel c))
      else (Some out, mkR (Some p) pread (udp_channel c))
  | None =>
      match udp_channel c with
      | [] => (None, c)
      | p :: q =>
          let r := if Nat.ltb (length p) buf_size then length p else buf_size in
          let out := firstn r p in
          if Nat.ltb r (length p)
          then (Some out, mkR (Some p) r q)
          else (Some out, mkR None 0 q)
      end
  end.

(* successive reads with the given buffer sizes; the bytes of each
   successful read *)
Fixpoint read_all (bs : list nat) (c : rstate) : list packet * rstate :=
  match bs with
  | [] => ([], c)
  | b :: bs' =>
      let '(o, c1) := in_read_packet b c in
      let '(outs, c2) := read_all bs' c1 in
      (match o with Some out => out :: outs | None => outs end, c2)
  end.

(* bytes not yet handed to the engine *)
Definition pending (c : rstate) : packet :=
  match cur_packet c with Some p => skipn (cur_pread c) p | None => [] end
  ++ concat (udp_channel c).

(* the unread part of the packet the next read takes bytes from *)
Definition head_remaining (c : rstate) : option nat :=
  match cur_packet c with
  | Some p => Some (length p - cur_pread c)%nat
  | None => option_map (@length _) (head (udp_channel c))
  end.

(* a partially read packet always has unread bytes left *)
Definition adapter_wf (c : rstate) : Prop :=
  match cur_packet c with
  | Some p => (cur_pread c < length p)%nat
  | None => True
  end.

End UdpAdapter.

(* ------------------------------------------------------------------ *)
(* Live capture readers                                                 *)
(* ------------------------------------------------------------------ *)

Module LiveReader.

(* What one iteration of the readUdp loop observes *)
Inductive udp_event :=
  | EvDeadlineErr                       (* SetReadDeadline fails *)
  | EvRecv (n : Z) (bw : Z) (werr : bool) (* ReadFrom got n bytes; w.Write returned (bw, werr) *)
  | EvTimeout                           (* ReadFrom: (0, timeout error) *)
  | EvReadErr.                          (* ReadFrom: (0, other error) *)

Inductive go_error := EAV_IO_TIMEOUT | OtherErr.

Inductive outcome :=
  | Waiting (bytesRead : Z)           (* still inside the loop *)
  | Returned (err : option go_error). (* readUdp returned err *)

Fixpoint readUdp_loop (bytesRead : Z) (evs : list udp_event) : outcome :=
  match evs with
  | [] => Waiting bytesRead
  | EvDeadlineErr :: _ => Returned (Some OtherErr)
  | EvRecv n bw werr :: evs' =>
      let br := bytesRead + n in
      if werr then Returned (Some OtherErr)
      else if negb (Z.eqb bw n) then Returned None
      else readUdp_loop br evs'
  | EvTimeout :: evs' =>
      if Z.eqb bytesRead 0 then readUdp_loop bytesRead evs'
      else Returned (Some EAV_IO_TIMEOUT)
  | EvReadErr :: _ => Returned (Some OtherErr)
  end.

Definition readUdp (evs : list udp_event) : outcome := readUdp_loop 0 evs.

(* the deferred w.Close() runs exactly when readUdp returns *)
Definition writer_closed (o : outcome) : bool :=
  match o with Returned _ => true | Waiting _ => false end.

(* serveOneConnection's goroutine: a non-nil error goes to ErrChannel *)
Definition err_channel (o : outcome) : list go_error :=
  match o with Returned (Some e) => [e] | _ => [] end.

(* The C test program's udp_thread_func: readable_timeout(fd,
   UDP_PIPE_TIMEOUT) either reports a readable socket (followed by a
   datagram of [len] bytes) or times out. *)
Inductive sock_event := Readable (len : Z) | NotReadable.

(* the datagram lengths sent into the channel, and whether the thread
   has left its loop *)
Fixpoint udp_thread_func (evs : list sock_event) : list Z * bool :=
  match evs with
  | [] => ([], false)
  | NotReadable :: _ => ([], true)
  | Readable len :: evs' =>
      let '(sent, stopped) := udp_thread_func evs' in (len :: sent, stopped)
  end.

End LiveReader.

(* ------------------------------------------------------------------ *)
(* Output file naming of the C test program (out_opener)                *)
(* ------------------------------------------------------------------ *)

Module OutNaming.
Import GoIO.

Local Open Scope string_scope.

Definition digit (d : N) : string := String (ascii_of_N (48 + d)) EmptyString.

Fixpoint digits_fuel (fuel : nat) (n : N) : string :=
  match fuel with
  | O => ""
  | S f => if N.ltb n 10 then digit n
           else digits_fuel f (N.div n 10) ++ digit (N.modulo n 10)
  end.

(* decimal representation of a natural number *)
Definition digits (n : N) : string := digits_fuel (S (N.size_nat n)) n.

Fixpoint zeros (k : nat) : string :=
  match k with O => "" | S k' => "0" ++ zeros k' end.

(* printf "%d" *)
Definition fmt_d (z : Z) : string :=
  if Z.ltb z 0 then "-" ++ digits (Z.to_N (- z)) else digits (Z.to_N z).

(* printf "%05d": zero padding to width 5, the sign counting in the width *)
Definition fmt_05d (z : Z) : string :=
  let s := digits (Z.to_N (Z.abs z)) in
  if Z.ltb z 0 then "-" ++ zeros (4 - String.length s) ++ s
  else zeros (5 - String.length s) ++ s.

(* sprintf(dir, "./O/O%d", gfd) *)
Definition out_dir (gfd : Z) : string := "./O/O" ++ fmt_d gfd.

(* the path segname given to open(); None for the default case (-1) *)
Definition out_opener_segname (gfd : Z) (t : stream_type) (url : string)
    (stream_index seg_index : Z) : option string :=
  let dir := out_dir gfd in
  match t with
  | avpipe_manifest => Some (dir ++ "/" ++ "dash.mpd")
  | avpipe_master_m3u => Some (dir ++ "/" ++ "master.m3u8")
  | avpipe_video_init_stream | avpipe_audio_init_stream
  | avpipe_video_m3u | avpipe_audio_m3u | avpipe_aes_128_key
  | avpipe_mp4_stream | avpipe_fmp4_stream => Some (dir ++ "/" ++ url)
  | avpipe_video_segment | avpipe_audio_segment =>
      Some ("./" ++ dir ++ "/" ++ "chunk-stream" ++ fmt_d stream_index ++ "-"
            ++ fmt_05d seg_index ++ ".m4s")
  | avpipe_mp4_segment =>
      Some ("./" ++ dir ++ "/" ++ "segment" ++ fmt_d stream_index ++ "-"
            ++ fmt_05d seg_index ++ ".mp4")
  | avpipe_fmp4_segment =>
      Some ("./" ++ dir ++ "/" ++ "fsegment" ++ fmt_d stream_index ++ "-"
            ++ fmt_05d seg_index ++ ".mp4")
  | avpipe_other_type _ => None
  end.

(* The naming convention as the spec words it (section 6): the file
   name for each kind it names; None for kinds it does not name. *)
Definition spec_file_name (t : stream_type) (url : string)
    (stream_index seg_index : Z) : option string :=
  let media prefix ext :=
    prefix ++ fmt_d stream_index ++ "-" ++ fmt_05d seg_index ++ "." ++ ext in
  match t with
  | avpipe_manifest => Some "dash.mpd"
  | avpipe_master_m3u => Some "master.m3u8"
  | avpipe_video_init_stream | avpipe_audio_init_stream
  | avpipe_video_m3u | avpipe_audio_m3u | avpipe_aes_128_key => Some url
  | avpipe_video_segment | avpipe_audio_segment => Some (media "chunk-stream" "m4s")
  | avpipe_mp4_segment => Some (media "segment" "mp4")
  | avpipe_fmp4_segment => Some (media "fsegment" "mp4")
  | _ => None
  end.

End OutNaming.

(* ------------------------------------------------------------------ *)
(* Concrete scenarios                                                   *)
(* ------------------------------------------------------------------ *)

Module Scenarios.
Import GoIO CGlue.

(* one session (handle 1) with one output slot (fd 1) open on it *)
Definition one_output : state :=
  snd (AVPipeOpenOutput 1 0 1 avpipe_video_segment (OpenOk 10)
         (snd (NewIOHandler true (OpenOk 1) init_state))).

Definition ctx0 : ioctx := mkIoctx 0 0 0 0.

(* a transcoding table with all MAX_TX slots in use *)
Definition full_table : tx_table :=
  map (fun i => Some (mkEntry (Z.of_nat i) (Z.of_nat i) (Z.of_nat i))) (seq 0 MAX_TX).

End Scenarios.

(* ------------------------------------------------------------------ *)
(* Output calls of the Go dispatcher on a slot never opened             *)
(* ------------------------------------------------------------------ *)

Module GoOut.
Import GoIO.

(* AVPipeSeekOutput with OutSeeker: getOutTable yields the nil
   OutputHandler for an fd not opened on the session, and the Seek
   call on it panics. *)
Definition AVPipeSeekOutputP (handler fd : Z) (n : Z) (err : bool)
    (st : state) : go_ret :=
  match get st handler with
  | None => Ret (-1)
  | Some h =>
      match outTable h !! fd with
      | None => Panic
      | Some _ => if err then Ret (-1) else Ret (wrap32 n)
      end
  end.

(* AVPipeCloseOutput with OutCloser: the same nil OutputHandler *)
Definition AVPipeCloseOutputP (handler fd : Z) (err : bool)
    (st : state) : go_ret :=
  match get st handler with
  | None => Ret (-1)
  | Some h =>
      match outTable h !! fd with
      | None => Panic
      | Some _ => if err then Ret (-1) else Ret 0
      end
  end.

End GoOut.

(* ------------------------------------------------------------------ *)
(* Seek callbacks of avpipe.c                                           *)
(* ------------------------------------------------------------------ *)

Module CSeek.
Import GoIO CGlue GoOut.

Definition SEEK_SET : Z := 0.
Definition SEEK_CUR : Z := 1.
Definition SEEK_END : Z := 2.
(* flags libavformat ors into whence *)
Definition AVSEEK_SIZE : Z := 65536.
Definition AVSEEK_FORCE : Z := 131072.

(* the switch on (whence & 0xFFFF) shared by in_seek (read_pos) and
   out_seek (write_pos); [sz] is c->sz *)
Definition seek_pos (sz pos offset whence : Z) : Z :=
  let w := Z.land whence 65535 in
  if w =? SEEK_SET then offset
  else if w =? SEEK_CUR then wrap64 (pos + offset)
  else if w =? SEEK_END then wrap64 (sz - offset)
  else pos.

(* in_seek: [h] is the handle in c->opaque, the backend's Seek returns
   (n, err) *)
Definition in_seek (st : state) (sz h offset whence : Z) (n : Z) (err : bool)
    (c : ioctx) : Z * ioctx :=
  let rc := AVPipeSeekInput h n err st in
  if rc <? 0 then (rc, c)
  else (rc, mkIoctx (read_bytes c) (seek_pos sz (read_pos c) offset whence)
                    (written_bytes c) (write_pos c)).

(* out_seek: [h] from inctx->opaque, [fd] from outctx->opaque; the
   position is updated whatever AVPipeSeekOutput returned *)
Definition out_seek (st : state) (sz h fd offset whence : Z) (n : Z) (err : bool)
    (c : ioctx) : go_ret * ioctx :=
  match AVPipeSeekOutputP h fd n err st with
  | Panic => (Panic, c)
  | Ret rc =>
      (Ret rc, mkIoctx (read_bytes c) (read_pos c) (written_bytes c)
                       (seek_pos sz (write_pos c) offset whence))
  end.

End CSeek.

(* ------------------------------------------------------------------ *)
(* Byte-count reporting of in_read_packet (avpipe.c)                    *)
(* ------------------------------------------------------------------ *)

Module ReadReport.
Import GoIO CGlue.

Section Report.
Variable BYTES_READ_REPORT : Z.

(* in_read_packet with c->read_reported as [rep]; the list holds the
   values in_stat passes to the input's Stat (AVPipeStatInput drops the
   call for a handle that is not registered). *)
Definition in_read_packet_rep (st : state) (h n : Z) (err : bool)
    (c : ioctx) (rep : Z) : Z * ioctx * Z * list Z :=
  let '(r, c1) := in_read_packet st h n err c in
  if read_bytes c1 - rep >? BYTES_READ_REPORT
  then (r, c1, read_bytes c1,
        match get st h with Some _ => [read_bytes c1] | None => [] end)
  else (r, c1, rep, []).

(* successive reads, the backend returning (n, err) for each *)
Fixpoint read_loop (st : state) (h : Z) (reads : list (Z * bool))
    (c : ioctx) (rep : Z) : list Z * ioctx * Z * list Z :=
  match reads with
  | [] => ([], c, rep, [])
  | (n, e) :: reads' =>
      let '(r, c1, rep1, s1) := in_read_packet_rep st h n e c rep in
      let '(rs, c2, rep2, s2) := read_loop st h reads' c1 rep1 in
      (r :: rs, c2, rep2, s1 ++ s2)
  end.

End Report.

(* sum of the positive values of a list *)
Definition sum_pos (rs : list Z) : Z :=
  fold_right Z.add 0 (List.filter (fun r => 0 <? r) rs).

End ReadReport.

(* ------------------------------------------------------------------ *)
(* Running, cancelling and one-shot transcoding (avpipe.c, avpipe.go)   *)
(* ------------------------------------------------------------------ *)

Module TxCtl.
Import GoIO CGlue.

(* a Go error result *)
Inductive go_err := ErrNil | ErrSet.

(* tx_run: [tx_ok] is avpipe_tx's success, [close_err] the input's Close
   error, [inctx_of ctx] the handle stored in the opaque of ctx's inctx *)
Definition tx_run (tx_ok close_err : bool) (inctx_of : Z -> Z) (handle : Z)
    (cs : cstate) : Z * cstate :=
  match tx_table_find handle (table cs) with
  | None => (-1, cs)
  | Some e =>
      let rc := if tx_ok then 0 else -1 in
      let st := in_closer (inctx_of (txctx e)) close_err (go cs) in
      (rc, mkCState st (tx_table_free handle (table cs)))
  end.

Definition tx_cancel (handle : Z) (cs : cstate) : Z :=
  tx_table_cancel handle (table cs).

(* tx: open, init, transcode, then always in_closer and avpipe_fini *)
Definition tx (filename_ok openers_set : bool) (opened : open_result)
    (init_ok tx_ok close_err : bool) (st : state) : Z * state :=
  if negb filename_ok then (-1, st) else
  let '(h, st1) := NewIOHandler openers_set opened st in
  let opaque := if h <=? 0 then 0 else h in
  let rc := if h <=? 0 then -1
            else if negb init_ok then -1
            else if negb tx_ok then -1 else 0 in
  (rc, in_closer opaque close_err st1).

(* TxInit: [params_set] is params != nil; C.CString(url) is never NULL,
   so tx_init's filename test is url = "" *)
Definition TxInit (params_set : bool) (url : string) (openers_set : bool)
    (opened : open_result) (init_ok : bool) (r ctx : Z) (close_err : bool)
    (cs : cstate) : Z * go_err * cstate :=
  if negb params_set then (-1, ErrSet, cs) else
  let o := tx_init (negb (String.eqb url ""%string)) openers_set opened init_ok
                   r ctx close_err cs in
  if ret o <? 0 then (-1, ErrSet, after o) else (ret o, ErrNil, after o).

Definition TxRun (tx_ok close_err : bool) (inctx_of : Z -> Z) (handle : Z)
    (cs : cstate) : go_err * cstate :=
  let '(rc, cs') := tx_run tx_ok close_err inctx_of handle cs in
  (if rc =? 0 then ErrNil else ErrSet, cs').

Definition TxCancel (handle : Z) (cs : cstate) : go_err :=
  if tx_cancel handle cs =? 0 then ErrNil else ErrSet.

End TxCtl.

(* ------------------------------------------------------------------ *)
(* Opener selection of the Go dispatcher (avpipe.go)                    *)
(* ------------------------------------------------------------------ *)

Module Openers.
Import GoIO TxCtl.

(* Openers are named by identifiers; a nil interface is None. *)
Record openers := mkOpeners {
  gURLInputOpeners : gmap string Z;
  gURLOutputOpeners : gmap string Z;
  gInputOpener : option Z;
  gOutputOpener : option Z
}.

Definition InitIOHandler (i o : option Z) (os : openers) : openers :=
  mkOpeners (gURLInputOpeners os) (gURLOutputOpeners os) i o.

Definition InitUrlIOHandler (url : string) (i o : option Z) (os : openers)
    : openers :=
  let m1 := match i with
            | Some x => <[url := x]> (gURLInputOpeners os)
            | None => gURLInputOpeners os
            end in
  let m2 := match o with
            | Some x => <[url := x]> (gURLOutputOpeners os)
            | None => gURLOutputOpeners os
            end in
  mkOpeners m1 m2 (gInputOpener os) (gOutputOpener os).

(* urlInputOpener / urlOutputOpener of NewIOHandler *)
Definition url_input_opener (url : string) (os : openers) : option Z :=
  match gURLInputOpeners os !! url with
  | Some x => Some x
  | None => gInputOpener os
  end.

Definition url_output_opener (url : string) (os : openers) : option Z :=
  match gURLOutputOpeners os !! url with
  | Some x => Some x
  | None => gOutputOpener os
  end.

(* the arguments NewIOHandler's body sees: whether both openers are
   set, and what Open of the input opener returns ([opened i] for the
   opener named i) *)
Definition resolve (url : string) (os : openers) (opened : Z -> open_result)
    : bool * open_result :=
  match url_input_opener url os, url_output_opener url os with
  | Some i, Some _ => (true, opened i)
  | _, _ => (false, OpenErr)
  end.

Definition NewIOHandlerU (url : string) (os : openers)
    (opened : Z -> open_result) (st : state) : Z * state :=
  let '(b, op) := resolve url os opened in NewIOHandler b op st.

(* the two deletes at the end of Tx and of a successful Probe *)
Definition forget_url (url : string) (os : openers) : openers :=
  mkOpeners (delete url (gURLInputOpeners os)) (delete url (gURLOutputOpeners os))
            (gInputOpener os) (gOutputOpener os).

(* Tx: [params_set] is params != nil *)
Definition Tx (params_set : bool) (url : string) (opened : Z -> open_result)
    (init_ok tx_ok close_err : bool) (os : openers) (st : state)
    : Z * state * openers :=
  if negb params_set then (-1, st, os) else
  let '(b, op) := resolve url os opened in
  let '(rc, st') := tx (negb (String.eqb url ""%string)) b op init_ok tx_ok close_err st in
  (rc, st', forget_url url os).

(* the opener tables after Probe, whose C.probe returned [rc] *)
Definition Probe_openers (rc : Z) (url : string) (os : openers) : openers :=
  if rc <=? 0 then os else forget_url url os.

(* AVPipeOpenOutput calls the global gOutputOpener; Open on a nil
   interface panics *)
Definition AVPipeOpenOutputU (os : openers) (handler stream_index seg_index : Z)
    (t : stream_type) (opened : Z -> open_result) (st : state) : go_ret * state :=
  match get st handler with
  | None => (Ret (-1), st)
  | Some h =>
      let fd := wrap64 (gFd st + 1) in
      let st1 := mkState (gHandlers st) (gHandleNum st) fd in
      if negb (valid_type t) then (Ret (-1), st1) else
      match gOutputOpener os with
      | None => (Panic, st1)
      | Some o =>
          match opened o with
          | OpenErr => (Ret (-1), st1)
          | OpenOk x =>
              let h' := mkIOHandler (input h) (<[fd := x]> (outTable h)) in
              (Ret fd, mkState (<[handler := Some h']> (gHandlers st1))
                               (gHandleNum st1) (gFd st1))
          end
      end
  end.

End Openers.

(* ------------------------------------------------------------------ *)
(* StreamInfoAsArray (avpipe.go)                                        *)
(* ------------------------------------------------------------------ *)

Module StreamArr.

Section Streams.
(* the fields of StreamInfo besides StreamIndex and CodecType, with
   their zero value *)
Variable Others : Type.
Variable others_zero : Others.

Record StreamInfo := mkStreamInfo {
  StreamIndex : Z;
  CodecType : string;
  others : Others
}.

(* a[i] after the initialisation loop *)
Definition unknown_entry (i : nat) : StreamInfo :=
  mkStreamInfo (Z.of_nat i) "unknown"%string others_zero.

Definition max_idx (s : list StreamInfo) : Z :=
  fold_left (fun m v => if StreamIndex v >? m then StreamIndex v else m) s 0.

(* a[v.StreamIndex] = v; None is the index-out-of-range panic *)
Definition set_at (a : list StreamInfo) (v : StreamInfo) : option (list StreamInfo) :=
  if (0 <=? StreamIndex v) && (StreamIndex v <? Z.of_nat (length a))
  then Some (<[Z.to_nat (StreamIndex v) := v]> a)
  else None.

Definition StreamInfoAsArray (s : list StreamInfo) : option (list StreamInfo) :=
  let a := map unknown_entry (seq 0 (Z.to_nat (max_idx s + 1))) in
  fold_left (fun acc v => match acc with Some a => set_at a v | None => None end)
            s (Some a).

(* the last stream of [s] with index i, or the filler *)
Definition slot_value (s : list StreamInfo) (i : nat) : StreamInfo :=
  match find (fun v => StreamIndex v =? Z.of_nat i) (rev s) with
  | Some v => v
  | None => unknown_entry i
  end.

End Streams.

Arguments mkStreamInfo {Others}.
Arguments StreamIndex {Others}.
Arguments CodecType {Others}.
Arguments others {Others}.
Arguments unknown_entry {Others}.
Arguments max_idx {Others}.
Arguments set_at {Others}.
Arguments StreamInfoAsArray {Others}.
Arguments slot_value {Others}.

End StreamArr.

(* ------------------------------------------------------------------ *)
(* The C test program: memory outputs, transcoding threads, images      *)
(* ------------------------------------------------------------------ *)

Module TestProg.

(* the fields of ioctx_t used by out_write_packet; [buf] is the content
   of outctx->buf at offsets 0 .. written_bytes-1 *)
Record outctx := mkOut {
  bufsz : Z;
  buf : list Byte.byte;
  written_bytes : Z;
  write_pos : Z
}.

(* out_write_packet: [fd] is the int stored at outctx->opaque, [data] the buffer of
   buf_size bytes, [wres] what write(2) returns for fd >= 0 *)
Definition out_write_packet (fd : Z) (data : list Byte.byte) (wres : Z)
    (c : outctx) : Z * outctx :=
  let buf_size := Z.of_nat (length data) in
  if fd <? 0 then
    let c1 := if bufsz c - written_bytes c <? buf_size
              then mkOut (bufsz c * 2) (buf c) (written_bytes c) (write_pos c)
              else c in
    (buf_size, mkOut (bufsz c1) (buf c1 ++ data)
                     (written_bytes c1 + buf_size) (write_pos c1 + buf_size))
  else if wres >=? 0
  then (wres, mkOut (bufsz c) (buf c) (written_bytes c + wres) (write_pos c + wres))
  else (wres, c).

(* successive writes to a memory output (fd = -1) *)
Fixpoint write_all (chunks : list (list Byte.byte)) (c : outctx) : list Z * outctx :=
  match chunks with
  | [] => ([], c)
  | d :: ds =>
      let '(r, c1) := out_write_packet (-1) d 0 c in
      let '(rs, c2) := write_all ds c1 in
      (r :: rs, c2)
  end.

(* one iteration of tx_thread_func: avpipe_opener, avpipe_init and
   avpipe_tx succeed or not *)
Record iteration := mkIter { open_ok : bool; init_ok : bool; tx_ok : bool }.

(* (inputs opened, inputs closed by avpipe_closer); avpipe_fini runs
   together with avpipe_closer *)
Fixpoint tx_thread_func (its : list iteration) : nat * nat :=
  match its with
  | [] => (0, 0)%nat
  | it :: its' =>
      let '(o, c) := tx_thread_func its' in
      if negb (open_ok it) then (o, c)
      else if negb (init_ok it) then (S o, c)
      else if negb (tx_ok it) then (S o, c)
      else (S o, S c)
  end.

Inductive image_type := png_image | jpg_image | gif_image | unknown_image.

(* strncmp(a, b, n) == 0 on NUL-terminated strings *)
Fixpoint strncmp_eq (n : nat) (a b : string) : bool :=
  match n with
  | O => true
  | S n' =>
      match a, b with
      | EmptyString, EmptyString => true
      | String x a', String y b' => Ascii.eqb x y && strncmp_eq n' a' b'
      | _, _ => false
      end
  end.

Definition get_image_type (s : string) : image_type :=
  if strncmp_eq 3 s "png"%string || strncmp_eq 3 s "PNG"%string then png_image
  else if strncmp_eq 3 s "jpg"%string || strncmp_eq 3 s "JPG"%string then jpg_image
  else if strncmp_eq 3 s "gif"%string || strncmp_eq 3 s "GIF"%string then gif_image
  else unknown_image.

End TestProg.

(* ------------------------------------------------------------------ *)
(* The legacy Go dispatcher avpipe_handler.go                          *)
(* ------------------------------------------------------------------ *)

Module Legacy.

Record ioHandler := mkIOHandler {
  input : Z;
  outTable : gmap Z Z            (* map[int]OutputHandler *)
}.

Record state := mkState {
  gHandlers : gmap Z (option ioHandler);
  gHandleNum : Z
}.

Definition init_state : state := mkState ∅ 0.

Definition get (st : state) (fd : Z) : option ioHandler :=
  match gHandlers st !! fd with
  | Some (Some h) => Some h
  | _ => None
  end.

(* NewIOHandler: the counter moves only after a successful Open *)
Definition NewIOHandler (openers_set : bool) (opened : GoIO.open_result)
    (st : state) : Z * state :=
  if negb openers_set then (-1, st) else
  match opened with
  | GoIO.OpenErr => (-1, st)
  | GoIO.OpenOk inp =>
      let n := wrap64 (gHandleNum st + 1) in
      (n, mkState (<[n := Some (mkIOHandler inp ∅)]> (gHandlers st)) n)
  end.

(* the five kinds of the type switch *)
Definition legacy_type (t : GoIO.stream_type) : bool :=
  match t with
  | GoIO.avpipe_video_init_stream | GoIO.avpipe_audio_init_stream
  | GoIO.avpipe_manifest | GoIO.avpipe_video_segment
  | GoIO.avpipe_audio_segment => true
  | _ => false
  end.

(* the map key int(seg_index-1)*2 + int(stream_index): seg_index-1 is
   computed in C.int *)
Definition out_key (stream_index seg_index : Z) : Z :=
  wrap32 (seg_index - 1) * 2 + stream_index.

(* AVPipeOpenOutput: [opener_set] is gOutputOpener != nil; h.outTable on
   a nil h panics *)
Definition AVPipeOpenOutput (handler stream_index seg_index : Z)
    (t : GoIO.stream_type) (opener_set : bool) (opened : GoIO.open_result)
    (st : state) : GoIO.go_ret * state :=
  if negb (legacy_type t) then (GoIO.Ret (-1), st) else
  if negb opener_set then (GoIO.Panic, st) else
  match opened with
  | GoIO.OpenErr => (GoIO.Ret (-1), st)
  | GoIO.OpenOk o =>
      let fd := out_key stream_index seg_index in
      match get st handler with
      | None => (GoIO.Panic, st)
      | Some h =>
          (GoIO.Ret (wrap32 fd),
           mkState (<[handler := Some (mkIOHandler (input h) (<[fd := o]> (outTable h)))]>
                      (gHandlers st)) (gHandleNum st))
      end
  end.

(* the output handler AVPipeWriteOutput(handler, fd, ...) writes to;
   None is a panic *)
Definition write_target (st : state) (handler fd : Z) : option Z :=
  match get st handler with
  | None => None
  | Some h => outTable h !! fd
  end.

(* registration operations, as GoIO.reg_op without closing *)
Fixpoint run_new (ops : list (bool * GoIO.open_result)) (st : state) : list Z * state :=
  match ops with
  | [] => ([], st)
  | (b, op) :: ops' =>
      let '(r, st1) := NewIOHandler b op st in
      let '(hs, st2) := run_new ops' st1 in
      ((if 0 <? r then [r] else []) ++ hs, st2)
  end.

End Legacy.

(* ------------------------------------------------------------------ *)
(* Further concrete scenarios                                           *)
(* ------------------------------------------------------------------ *)

Module MoreScenarios.
Import GoIO CGlue.

(* transcoding session 7 in slot 0, its context consistent with the
   slot; its input is the Go session 1 of Scenarios.one_output *)
Definition one_tx : cstate :=
  mkCState Scenarios.one_output (<[0%nat := Some (mkEntry 7 1 0)]> empty_table).

(* the same entry with a context recording index 3 *)
Definition bad_tx : cstate :=
  mkCState Scenarios.one_output (<[0%nat := Some (mkEntry 7 1 3)]> empty_table).

(* nothing registered, an empty table *)
Definition fresh : cstate := mkCState init_state empty_table.

End MoreScenarios.

(* ================================================================== *)
(* Facts                                                                *)
(* ================================================================== *)

Module GoIOFacts.
Import GoIO.

Lemma wrap64_id (z : Z) : - 2 ^ 63 <= z <= INT64_MAX -> wrap64 z = z.
Proof.
  unfold wrap64, INT64_MAX; intros H.
  rewrite Z.mod_small by lia. lia.
Qed.

Lemma NewIOHandler_counter os op st :
  0 <= gHandleNum st < INT64_MAX ->
  gHandleNum (snd (NewIOHandler os op st)) = gHandleNum st \/
  gHandleNum (snd (NewIOHandler os op st)) = gHandleNum st + 1.
Proof.
  intros H. unfold NewIOHandler.
  destruct os; simpl; [|auto].
  rewrite wrap64_id by (unfold INT64_MAX in *; lia).
  destruct op; simpl; auto.
Qed.

Lemma reg_step_counter o st :
  0 <= gHandleNum st < INT64_MAX ->
  gHandleNum st <= gHandleNum (snd (reg_step o st)) <= gHandleNum st + 1.
Proof.
  intros H. destruct o as [os op | fd e]; simpl.
  - destruct (NewIOHandler_counter os op st H); lia.
  - unfold AVPipeCloseInput. destruct (get st fd); simpl; lia.
Qed.

(* The handle returned by a successful NewIOHandler is the incremented
   counter. *)
Lemma NewIOHandler_ok st inp :
  0 <= gHandleNum st < INT64_MAX ->
  fst (NewIOHandler true (OpenOk inp) st) = gHandleNum st + 1 /\
  gHandleNum (snd (NewIOHandler true (OpenOk inp) st)) = gHandleNum st + 1.
Proof.
  intros H. unfold NewIOHandler; simpl.
  rewrite wrap64_id by (unfold INT64_MAX in *; lia). auto.
Qed.

Lemma issued_step o st :
  0 <= gHandleNum st < INT64_MAX ->
  Forall (fun h => h = gHandleNum (snd (reg_step o st)) /\ gHandleNum st < h)
         (issued o (fst (reg_step o st))).
Proof.
  intros H. destruct o as [[|] [inp|] | fd e]; cbn [reg_step issued]; try constructor.
  destruct (NewIOHandler_ok st inp H) as [E1 E2]. rewrite E1, E2. split; lia.
  constructor.
Qed.

(* Handles issued along a run are strictly increasing and exceed the
   counter's starting value. *)
Lemma run_issued ops : forall st,
  0 <= gHandleNum st -> gHandleNum st + Z.of_nat (length ops) <= INT64_MAX ->
  StronglySorted Z.lt (fst (run ops st)) /\
  Forall (fun h => gHandleNum st < h) (fst (run ops st)) /\
  gHandleNum st <= gHandleNum (snd (run ops st)).
Proof.
  induction ops as [|o ops IH]; intros st H0 Hb; simpl.
  - repeat constructor; lia.
  - simpl length in Hb.
    assert (Hs : 0 <= gHandleNum st < INT64_MAX) by lia.
    pose proof (reg_step_counter o st Hs) as Hc.
    pose proof (issued_step o st Hs) as Hi.
    destruct (reg_step o st) as [r st1] eqn:E; simpl in *.
    destruct (IH st1) as (Hsort & Hall & Hmon); [lia | lia |].
    destruct (run ops st1) as [hs st2]; simpl in *.
    split; [| split].
    + destruct o as [[|] [inp|] | fd e]; simpl in *; auto.
      constructor; auto.
      inversion Hi as [|? ? [Hx _] _]; subst.
      eapply Forall_impl; [exact Hall|]. simpl. lia.
    + apply Forall_app; split.
      * eapply Forall_impl; [exact Hi|]. simpl. lia.
      * eapply Forall_impl; [exact Hall|]. simpl. lia.
    + lia.
Qed.

Lemma wf_init : wf init_state.
Proof. split; [simpl; lia|]. intros k v H. simpl in H. rewrite lookup_empty in H. discriminate. Qed.

Lemma wf_step o st :
  gHandleNum st < INT64_MAX -> wf st -> wf (snd (reg_step o st)).
Proof.
  intros Hb [H0 Hk]. destruct o as [os op | fd e]; simpl.
  - unfold NewIOHandler. destruct os; simpl; [|split; auto].
    rewrite wrap64_id by (unfold INT64_MAX in *; lia).
    destruct op; split; cbn; try lia.
    + intros k v Hl. destruct (decide (k = gHandleNum st + 1)) as [->|Hne]; [lia|].
      rewrite lookup_insert_ne in Hl by congruence. apply Hk in Hl. lia.
    + intros k v Hl. apply Hk in Hl. lia.
  - unfold AVPipeCloseInput. destruct (get st fd) eqn:Eg; simpl; [|split; auto].
    split; cbn; [lia|]. intros k v Hl.
    destruct (decide (k = fd)) as [->|Hne].
    + unfold get in Eg. destruct (gHandlers st !! fd) as [[]|] eqn:E'; try discriminate.
      apply Hk in E'. exact E'.
    + rewrite lookup_insert_ne in Hl by congruence. apply Hk in Hl. exact Hl.
Qed.

Lemma wf_run ops : forall st,
  wf st -> gHandleNum st + Z.of_nat (length ops) <= INT64_MAX ->
  wf (snd (run ops st)).
Proof.
  induction ops as [|o ops IH]; intros st Hw Hb; simpl; auto.
  simpl length in Hb.
  destruct Hw as [H0 Hk].
  assert (Hs : 0 <= gHandleNum st < INT64_MAX) by lia.
  pose proof (reg_step_counter o st Hs) as Hc.
  pose proof (wf_step o st ltac:(lia) (conj H0 Hk)) as Hw1.
  destruct (reg_step o st) as [r st1] eqn:E; simpl in *.
  specialize (IH st1 Hw1 ltac:(lia)).
  destruct (run ops st1); exact IH.
Qed.

Lemma run_counter ops : forall st,
  0 <= gHandleNum st -> gHandleNum st + Z.of_nat (length ops) <= INT64_MAX ->
  gHandleNum (snd (run ops st)) <= gHandleNum st + Z.of_nat (length ops).
Proof.
  induction ops as [|o ops IH]; intros st H0 Hb; simpl; [lia|].
  simpl length in Hb.
  assert (Hs : 0 <= gHandleNum st < INT64_MAX) by lia.
  pose proof (reg_step_counter o st Hs) as Hc.
  destruct (reg_step o st) as [r st1] eqn:E; simpl in *.
  specialize (IH st1 ltac:(lia) ltac:(lia)).
  destruct (run ops st1); simpl in *. lia.
Qed.

(* A handle that is absent and not above the counter stays absent. *)
Lemma absent_run ops : forall st h,
  0 <= gHandleNum st -> gHandleNum st + Z.of_nat (length ops) <= INT64_MAX ->
  h <= gHandleNum st -> get st h = None ->
  get (snd (run ops st)) h = None.
Proof.
  induction ops as [|o ops IH]; intros st h H0 Hb Hh Hg; simpl; auto.
  simpl length in Hb.
  assert (Hs : 0 <= gHandleNum st < INT64_MAX) by lia.
  pose proof (reg_step_counter o st Hs) as Hc.
  assert (Hg1 : get (snd (reg_step o st)) h = None).
  { destruct o as [os op | fd e]; simpl.
    - unfold NewIOHandler. destruct os; simpl; [|exact Hg].
      rewrite wrap64_id by (unfold INT64_MAX in *; lia).
      destruct op; simpl; [|exact Hg].
      unfold get; simpl. rewrite lookup_insert_ne by lia. exact Hg.
    - unfold AVPipeCloseInput. destruct (get st fd); simpl; [|exact Hg].
      unfold get; simpl. destruct (decide (fd = h)) as [->|Hne].
      + rewrite lookup_insert_eq. reflexivity.
      + rewrite lookup_insert_ne by exact Hne. exact Hg. }
  destruct (reg_step o st) as [r st1] eqn:E; simpl in *.
  specialize (IH st1 h ltac:(lia) ltac:(lia) ltac:(lia) Hg1).
  destruct (run ops st1); exact IH.
Qed.

(* Every dispatcher entry point reports -1 for a handle with no live
   entry. *)
Lemma dispatch_absent h c st :
  get st h = None -> dispatch h c st = Ret (-1).
Proof.
  intros Hg. destruct c; simpl;
    unfold AVPipeReadInput, AVPipeSeekInput, AVPipeStatInput, AVPipeCloseInput,
      AVPipeOpenOutput, AVPipeWriteOutput, AVPipeSeekOutput, AVPipeCloseOutput,
      AVPipeStatOutput; rewrite Hg; reflexivity.
Qed.

End GoIOFacts.

Module CGlueFacts.
Import GoIO CGlue.

Definition cnt (h : Z) (o : option txctx_entry) : nat :=
  match o with Some e => if Z.eqb (handle e) h then 1%nat else 0%nat | None => 0%nat end.

(* number of live entries of the table carrying handle h *)
Fixpoint live_with (h : Z) (tbl : tx_table) : nat :=
  match tbl with [] => 0%nat | o :: t => (cnt h o + live_with h t)%nat end.

(* every live entry at slot i has txctx->index == i *)
Definition tbl_wf (tbl : tx_table) : Prop :=
  forall (i : nat) e, tbl !! i = Some (Some e) -> ctx_index e = Z.of_nat i.

Lemma find_handle_spec h tbl : forall i e,
  find_handle h tbl = Some (i, e) -> tbl !! i = Some (Some e) /\ handle e = h.
Proof.
  induction tbl as [|o tbl IH]; intros i e H; simpl in H; [discriminate|].
  destruct o as [e0|].
  - destruct (Z.eqb_spec (handle e0) h) as [Hq|Hq].
    + inversion H; subst. simpl. auto.
    + destruct (find_handle h tbl) as [[j e1]|] eqn:E in H; simpl in H; [|discriminate].
      inversion H; subst. apply IH in E. simpl. exact E.
  - destruct (find_handle h tbl) as [[j e1]|] eqn:E in H; simpl in H; [|discriminate].
    inversion H; subst. apply IH in E. simpl. exact E.
Qed.

Lemma find_handle_none h tbl :
  find_handle h tbl = None <-> live_with h tbl = 0%nat.
Proof.
  induction tbl as [|o tbl IH]; simpl; [tauto|].
  destruct o as [e0|]; simpl.
  - destruct (Z.eqb_spec (handle e0) h); simpl.
    + split; discriminate.
    + rewrite <- IH. destruct (find_handle h tbl) as [[]|]; simpl; split; congruence.
  - rewrite <- IH. destruct (find_handle h tbl) as [[]|]; simpl; split; congruence.
Qed.

Lemma live_with_insert h tbl : forall (i : nat) o o',
  tbl !! i = Some o ->
  (live_with h (<[i := o']> tbl) + cnt h o = live_with h tbl + cnt h o')%nat.
Proof.
  induction tbl as [|x tbl IH]; intros i o o' Hi; [discriminate|].
  destruct i as [|i]; simpl in *.
  - inversion Hi; subst. lia.
  - specialize (IH i o o' Hi). rewrite <- !Nat.add_assoc. f_equal. exact IH.
Qed.

Lemma first_free_spec tbl : forall i,
  first_free tbl = Some i -> tbl !! i = Some None.
Proof.
  induction tbl as [|o tbl IH]; intros i H; simpl in H; [discriminate|].
  destruct o as [e|].
  - destruct (first_free tbl) as [j|] eqn:E; simpl in H; [|discriminate].
    inversion H; subst. simpl. apply IH. reflexivity.
  - inversion H; subst. reflexivity.
Qed.

(* out_write_packet reports buf_size whatever the backend answered *)
Lemma out_write_packet_ret st h fd buf_size n err c :
  AVPipeWriteOutput h fd n err st <> Panic ->
  fst (out_write_packet st h fd buf_size n err c) = Ret buf_size.
Proof.
  unfold out_write_packet. destruct (AVPipeWriteOutput h fd n err st); simpl; congruence.
Qed.

End CGlueFacts.

(* ------------------------------------------------------------------ *)
(* Claims about the dispatcher, the registry and the session table     *)
(* ------------------------------------------------------------------ *)

Module DispatcherClaims.
Import GoIO CGlue GoIOFacts CGlueFacts Scenarios.

(** C1 (failing input): with session 1 holding output slot 1, a backend
    Write that fails (0, err) makes AVPipeWriteOutput return -1, and a
    short Write (100, nil) makes it return 100; in both cases the C
    callback out_write_packet hands buf_size = 4096 to the engine, as if
    the whole buffer had been written. *)
Theorem C1_write_result_dropped :
  AVPipeWriteOutput 1 1 0 true one_output = Ret (-1) /\
  fst (out_write_packet one_output 1 1 4096 0 true ctx0) = Ret 4096 /\
  AVPipeWriteOutput 1 1 100 false one_output = Ret 100 /\
  fst (out_write_packet one_output 1 1 4096 100 false ctx0) = Ret 4096.
Proof. repeat split; vm_compute; reflexivity. Qed.

(** C2 (counterexample): a live input whose backend Read signals end of
    stream with (0, nil) makes AVPipeReadInput return 0, but
    in_read_packet turns it into -1 for the engine. *)
Lemma C2_eof_becomes_error :
  AVPipeReadInput 1 0 false one_output = 0 /\
  fst (in_read_packet one_output 1 0 false ctx0) = -1.
Proof. split; vm_compute; reflexivity. Qed.

(** C2 (amended): AVPipeReadInput returns -1 for an unknown handle or a
    backend error and the backend's count otherwise (0 at end of stream);
    in_read_packet passes a positive count through and returns -1 in
    every other case, so the engine never receives 0. *)
Theorem C2_read_results :
  forall (st : state) (h n : Z) (err : bool) (c : ioctx),
    AVPipeReadInput h n err st =
      match get st h with Some _ => if err then -1 else n | None => -1 end /\
    fst (in_read_packet st h n err c) =
      match get st h with
      | Some _ => if err then -1 else if n >? 0 then n else -1
      | None => -1
      end /\
    fst (in_read_packet st h n err c) <> 0.
Proof.
  intros st h n err c. unfold in_read_packet, AVPipeReadInput.
  destruct (get st h); simpl; [|repeat split; lia].
  destruct err; simpl; [repeat split; lia|].
  destruct (Z.gtb_spec n 0); simpl; repeat split; lia.
Qed.

(** C4 (counterexample): two tx_table_put calls whose rand() draws are
    both 7 leave two live table entries with handle 7. *)
Lemma C4_duplicate_live_handle :
  fst (tx_table_put 7 100 empty_table) = 7 /\
  fst (tx_table_put 7 200 (snd (tx_table_put 7 100 empty_table))) = 7 /\
  live_with 7 (snd (tx_table_put 7 200 (snd (tx_table_put 7 100 empty_table)))) = 2%nat.
Proof. repeat split; vm_compute; reflexivity. Qed.

(** C4 (amended): tx_table_put stores the drawn value r (rand() is in
    0..2^31-1) as the handle of the first free slot without comparing it
    with the live handles: the number of live entries carrying r grows by
    one, also when r is already live. *)
Theorem C4_put_without_collision_check :
  forall (tbl : tx_table) (i : nat) (r ctx : Z),
    first_free tbl = Some i -> 0 <= r <= 2 ^ 31 - 1 ->
    tx_table_put r ctx tbl = (r, <[i := Some (mkEntry r ctx (Z.of_nat i))]> tbl) /\
    live_with r (snd (tx_table_put r ctx tbl)) = S (live_with r tbl).
Proof.
  intros tbl i r ctx Hf Hr.
  assert (Hw : wrap32 r = r).
  { unfold wrap32. rewrite Z.mod_small by lia. lia. }
  assert (Hput : tx_table_put r ctx tbl = (r, <[i := Some (mkEntry r ctx (Z.of_nat i))]> tbl)).
  { unfold tx_table_put. rewrite Hf, Hw.
    destruct (Z.ltb_spec r 0); [lia|reflexivity]. }
  split; [exact Hput|]. rewrite Hput; simpl.
  pose proof (live_with_insert r tbl i None (Some (mkEntry r ctx (Z.of_nat i)))
                (first_free_spec tbl i Hf)) as E.
  simpl in E. rewrite Z.eqb_refl in E. lia.
Qed.

Lemma C4_put_without_collision_check_witness :
  first_free [Some (mkEntry 7 1 0); None] = Some 1%nat /\ 0 <= 7 <= 2 ^ 31 - 1 /\
  tx_table_put 7 2 [Some (mkEntry 7 1 0); None] =
    (7, <[1%nat := Some (mkEntry 7 2 (Z.of_nat 1))]> [Some (mkEntry 7 1 0); None]) /\
  live_with 7 (snd (tx_table_put 7 2 [Some (mkEntry 7 1 0); None])) =
    S (live_with 7 [Some (mkEntry 7 1 0); None]).
Proof.
  assert (Hf : first_free [Some (mkEntry 7 1 0); None] = Some 1%nat) by reflexivity.
  assert (Hr : 0 <= 7 <= 2 ^ 31 - 1) by lia.
  split; [exact Hf|]. split; [exact Hr|].
  exact (C4_put_without_collision_check _ _ _ _ Hf Hr).
Defined.

(** C5 (failing input): with all 128 slots of tx_table in use, tx_init
    (valid file name, input opened as Go handle 1, avpipe_init
    succeeding) returns -1 and adds no table entry, but skips the
    end_tx_init cleanup: the input closer and avpipe_fini are not called
    and Go handle 1 stays registered. *)
Theorem C5_full_table_skips_cleanup :
  ret (tx_init true true (OpenOk 1) true 42 500 false (mkCState init_state full_table)) = -1 /\
  table (after (tx_init true true (OpenOk 1) true 42 500 false (mkCState init_state full_table)))
    = full_table /\
  closer_called (tx_init true true (OpenOk 1) true 42 500 false (mkCState init_state full_table))
    = false /\
  fini_called (tx_init true true (OpenOk 1) true 42 500 false (mkCState init_state full_table))
    = false /\
  get (go (after (tx_init true true (OpenOk 1) true 42 500 false (mkCState init_state full_table)))) 1
    = Some (mkIOHandler 1 ∅).
Proof. repeat split; vm_compute; reflexivity. Qed.

Lemma wf_get_bound st h : wf st -> get st h <> None -> 1 <= h <= gHandleNum st.
Proof.
  intros [_ Hk] Hg. unfold get in Hg.
  destruct (gHandlers st !! h) as [v|] eqn:E; [|congruence].
  exact (Hk h v E).
Qed.

Lemma tx_table_free_unique tbl h :
  tbl_wf tbl -> (live_with h tbl <= 1)%nat -> tx_table_find h (tx_table_free h tbl) = None.
Proof.
  intros Hw Hl. unfold tx_table_free.
  destruct (find_handle h tbl) as [[i e]|] eqn:E.
  - apply find_handle_spec in E as [Hi He].
    rewrite (Hw i e Hi), Z.eqb_refl.
    pose proof (live_with_insert h tbl i (Some e) None Hi) as L.
    simpl in L. rewrite He, Z.eqb_refl in L.
    unfold tx_table_find.
    assert (H0 : live_with h (<[i := None]> tbl) = 0%nat) by lia.
    apply find_handle_none in H0. rewrite H0. reflexivity.
  - unfold tx_table_find. rewrite E. reflexivity.
Qed.

(** C3 (counterexample): rand() drawing 5 twice gives two live sessions
    with handle 5; after tx_table_free(5) the lookup tx_table_find(5)
    still returns an entry. *)
Lemma C3_find_after_free_duplicate :
  tx_table_find 5 (tx_table_free 5
    (snd (tx_table_put 5 2 (snd (tx_table_put 5 1 empty_table))))) <> None.
Proof. vm_compute. discriminate. Qed.

(** C3 (amended): in the Go handle registry, for every sequence of
    NewIOHandler/AVPipeCloseInput calls before and after it (without
    counter overflow), a handle unregistered by AVPipeCloseInput is
    looked up as absent afterwards, and every dispatcher entry point
    called with it returns -1; in the C session table, tx_table_find(h)
    is absent right after tx_table_free(h) when at most one live entry
    carried h. *)
Theorem C3_lookup_after_unregister :
  (forall (ops1 ops2 : list reg_op) (h : Z) (e : bool),
     Z.of_nat (length ops1 + length ops2) <= INT64_MAX ->
     get (snd (run ops1 init_state)) h <> None ->
     let st3 := snd (run ops2 (snd (AVPipeCloseInput h e (snd (run ops1 init_state))))) in
     get st3 h = None /\ forall c : call, dispatch h c st3 = Ret (-1)) /\
  (forall (tbl : tx_table) (h : Z),
     tbl_wf tbl -> (live_with h tbl <= 1)%nat ->
     tx_table_find h (tx_table_free h tbl) = None).
Proof.
  split.
  - intros ops1 ops2 h e Hb Hg st3.
    assert (Hw1 : wf (snd (run ops1 init_state))).
    { apply wf_run; [apply wf_init|]. simpl. lia. }
    assert (Hc1 : gHandleNum (snd (run ops1 init_state)) <= Z.of_nat (length ops1)).
    { pose proof (run_counter ops1 init_state) as R. simpl in R. lia. }
    pose proof (wf_get_bound _ _ Hw1 Hg) as Hh.
    destruct Hw1 as [H0 _].
    set (st1 := snd (run ops1 init_state)) in *.
    assert (E2 : get (snd (AVPipeCloseInput h e st1)) h = None /\
                 gHandleNum (snd (AVPipeCloseInput h e st1)) = gHandleNum st1).
    { unfold AVPipeCloseInput. destruct (get st1 h); [|congruence].
      simpl. unfold get; simpl. rewrite lookup_insert_eq. auto. }
    destruct E2 as [Hg2 Hc2].
    assert (Ha : get st3 h = None).
    { apply absent_run; try lia. exact Hg2. }
    split; [exact Ha|]. intros c. apply dispatch_absent. exact Ha.
  - intros tbl h. apply tx_table_free_unique.
Qed.

Lemma C3_lookup_after_unregister_witness :
  get (snd (run [OpNew true (OpenOk 3); OpClose 1 false; OpNew true (OpenOk 4)]
             (snd (AVPipeCloseInput 1 false
                     (snd (run [OpNew true (OpenOk 3)] init_state)))))) 1 = None /\
  tx_table_find 1 (tx_table_free 1 [Some (mkEntry 1 9 0); None]) = None.
Proof.
  split.
  - apply (proj1 C3_lookup_after_unregister [OpNew true (OpenOk 3)]
             [OpNew true (OpenOk 3); OpClose 1 false; OpNew true (OpenOk 4)] 1 false).
    + unfold INT64_MAX; simpl; lia.
    + vm_compute. discriminate.
  - apply (proj2 C3_lookup_after_unregister).
    + intros i e Hi. destruct i as [|[|i]]; simpl in Hi; try discriminate.
      inversion Hi; reflexivity.
    + vm_compute. lia.
Defined.

(** C10: from the initial registry, along any sequence of NewIOHandler
    and AVPipeCloseInput calls that does not overflow the int64 counter,
    the handles returned by successful NewIOHandler calls are positive
    and strictly increasing; AVPipeCloseInput never changes the counter
    and only stores nil under the closed key. *)
Theorem C10_handles_increasing :
  forall ops : list reg_op,
    Z.of_nat (length ops) <= INT64_MAX ->
    StronglySorted Z.lt (fst (run ops init_state)) /\
    Forall (fun h => 0 < h) (fst (run ops init_state)) /\
    (forall (fd : Z) (e : bool) (st : state),
       gHandleNum (snd (AVPipeCloseInput fd e st)) = gHandleNum st /\
       gHandlers (snd (AVPipeCloseInput fd e st)) =
         match get st fd with
         | Some _ => <[fd := None]> (gHandlers st)
         | None => gHandlers st
         end).
Proof.
  intros ops Hb.
  destruct (run_issued ops init_state) as (Hs & Ha & _); simpl; try lia.
  split; [exact Hs|]. split; [exact Ha|].
  intros fd e st. unfold AVPipeCloseInput. destruct (get st fd); simpl; auto.
Qed.

Lemma C10_handles_increasing_witness :
  StronglySorted Z.lt
    (fst (run [OpNew true (OpenOk 7); OpNew true OpenErr; OpClose 1 false;
               OpNew true (OpenOk 8)] init_state)) /\
  fst (run [OpNew true (OpenOk 7); OpNew true OpenErr; OpClose 1 false;
            OpNew true (OpenOk 8)] init_state) = [1; 3].
Proof.
  split.
  - apply (C10_handles_increasing
             [OpNew true (OpenOk 7); OpNew true OpenErr; OpClose 1 false;
              OpNew true (OpenOk 8)]).
    unfold INT64_MAX; simpl; lia.
  - vm_compute. reflexivity.
Defined.

End DispatcherClaims.

Module UdpAdapterFacts.
Import UdpAdapter.

Lemma length_skipn' {A} (n : nat) (l : list A) : length (skipn n l) = (length l - n)%nat.
Proof. apply length_skipn. Qed.

(* One read hands out a prefix of the pending bytes and keeps the rest. *)
Lemma read_step b c :
  adapter_wf c ->
  (match fst (in_read_packet b c) with Some out => out | None => [] end)
    ++ pending (snd (in_read_packet b c)) = pending c /\
  adapter_wf (snd (in_read_packet b c)).
Proof.
  destruct c as [[p|] pread q]; unfold adapter_wf, pending, in_read_packet; simpl; intros Hw.
  - set (rem := (length p - pread)%nat).
    set (r := if Nat.ltb rem b then rem else b).
    assert (Hr : (r <= rem)%nat) by (unfold r; destruct (Nat.ltb_spec rem b); lia).
    destruct (Nat.eqb_spec (pread + r) (length p)) as [Heq|Hne]; simpl.
    + split; [|exact I].
      f_equal.
      rewrite firstn_all2; [reflexivity|]. rewrite length_skipn'. lia.
    + split; [|lia].
      rewrite app_assoc. f_equal.
      rewrite <- (firstn_skipn r (skipn pread p)) at 2.
      f_equal. rewrite skipn_skipn. f_equal. lia.
  - destruct q as [|p q]; simpl; [split; auto|].
    set (r := if Nat.ltb (length p) b then length p else b).
    assert (Hr : (r <= length p)%nat) by (unfold r; destruct (Nat.ltb_spec (length p) b); lia).
    destruct (Nat.ltb_spec r (length p)) as [Hlt|Hge]; simpl.
    + split; [|exact Hlt]. rewrite app_assoc, firstn_skipn. reflexivity.
    + split; [|exact I]. rewrite firstn_all2 by lia. reflexivity.
Qed.

Lemma read_all_pending bs : forall c,
  adapter_wf c ->
  concat (fst (read_all bs c)) ++ pending (snd (read_all bs c)) = pending c /\
  adapter_wf (snd (read_all bs c)).
Proof.
  induction bs as [|b bs IH]; intros c Hw; simpl; [auto|].
  destruct (read_step b c Hw) as [Hp Hw1].
  destruct (in_read_packet b c) as [o c1]; simpl in *.
  destruct (IH c1 Hw1) as [Hp1 Hw2].
  destruct (read_all bs c1) as [outs c2]; simpl in *.
  split; [|exact Hw2].
  destruct o as [out|]; simpl; [rewrite <- app_assoc, Hp1; exact Hp | rewrite Hp1; exact Hp].
Qed.

(* bytes still pending plus queued packets: decreases with every read
   while something is left *)
Definition measure (c : rstate) : nat := (length (pending c) + length (udp_channel c))%nat.

Lemma read_step_measure b c :
  adapter_wf c -> (1 <= b)%nat ->
  (cur_packet c <> None \/ udp_channel c <> []) ->
  (measure (snd (in_read_packet b c)) < measure c)%nat.
Proof.
  intros Hw Hb Hne.
  destruct (read_step b c Hw) as [Hp _].
  unfold measure. rewrite <- Hp, length_app.
  destruct c as [[p|] pread q]; unfold adapter_wf, in_read_packet in *; simpl in *.
  - set (rem := (length p - pread)%nat) in *.
    set (r := if Nat.ltb rem b then rem else b) in *.
    assert (Hr : (1 <= r <= rem)%nat) by (unfold r, rem in *; destruct (Nat.ltb_spec (length p - pread) b); lia).
    assert (Hl : length (firstn r (skipn pread p)) = r).
    { rewrite length_firstn, length_skipn'. unfold rem in Hr. lia. }
    destruct (Nat.eqb (pread + r) (length p)); simpl in *; lia.
  - destruct q as [|p q]; [destruct Hne; congruence|]. simpl.
    destruct (Nat.ltb _ (length p)); simpl; lia.
Qed.

Lemma read_all_drains bs : forall c,
  adapter_wf c -> Forall (fun b => 1 <= b)%nat bs -> (measure c <= length bs)%nat ->
  pending (snd (read_all bs c)) = [].
Proof.
  induction bs as [|b bs IH]; intros c Hw Hbs Hm; simpl.
  - unfold measure in Hm. simpl in Hm. apply length_zero_iff_nil. lia.
  - inversion Hbs as [|? ? Hb Hbs']; subst.
    destruct (read_step b c Hw) as [_ Hw1].
    destruct (decide (cur_packet c = None /\ udp_channel c = [])) as [[Hc Hq]|Hn].
    + (* nothing left: the read times out and the state stays *)
      assert (E : in_read_packet b c = (None, c)).
      { destruct c as [cp pr q]; simpl in *; subst; reflexivity. }
      rewrite E. simpl.
      specialize (IH c Hw Hbs').
      destruct (read_all bs c) as [outs c2] eqn:Ec; simpl in *.
      apply IH. unfold measure. destruct c as [cp pr q]; simpl in *; subst. simpl. lia.
    + assert (Hd : cur_packet c <> None \/ udp_channel c <> []).
      { destruct (cur_packet c) eqn:E1, (udp_channel c) eqn:E2;
          [left|left| |right]; try congruence.
        exfalso; apply Hn; auto. }
      pose proof (read_step_measure b c Hw Hb Hd) as Hlt.
      destruct (in_read_packet b c) as [o c1]; simpl in *.
      specialize (IH c1 Hw1 Hbs' ltac:(lia)).
      destruct (read_all bs c1) as [outs c2]; simpl in *. exact IH.
Qed.

Lemma read_amount b c :
  adapter_wf c ->
  match fst (in_read_packet b c) with
  | Some out => Some (length out) = option_map (Nat.min b) (head_remaining c)
  | None => head_remaining c = None
  end.
Proof.
  destruct c as [[p|] pread q]; unfold adapter_wf, head_remaining, in_read_packet; simpl; intros Hw.
  - destruct (Nat.eqb _ _); simpl; f_equal;
      rewrite length_firstn, length_skipn';
      destruct (Nat.ltb_spec (length p - pread) b); lia.
  - destruct q as [|p q]; simpl; [reflexivity|].
    destruct (Nat.ltb_spec (length p) b) as [H1|H1];
      destruct (Nat.ltb _ (length p)); simpl; f_equal; rewrite length_firstn; lia.
Qed.

End UdpAdapterFacts.

Module GoSlotsFacts.
Import GoIO GoSlots GoIOFacts.

Lemma reg_step_gFd o st : gFd (snd (reg_step o st)) = gFd st.
Proof.
  destruct o as [os op | fd e]; simpl.
  - unfold NewIOHandler. destruct os; simpl; [|reflexivity]. destruct op; reflexivity.
  - unfold AVPipeCloseInput. destruct (get st fd); reflexivity.
Qed.

(* one step hands out at most one slot id, the incremented gFd *)
Lemma go_step_slot o st :
  0 <= gFd st < INT64_MAX ->
  (slot_of o (fst (go_step o st)) = [] /\ gFd st <= gFd (snd (go_step o st)) <= gFd st + 1) \/
  (slot_of o (fst (go_step o st)) = [gFd st + 1] /\ gFd (snd (go_step o st)) = gFd st + 1).
Proof.
  intros H. destruct o as [r | h si sg t op]; simpl.
  - left. rewrite reg_step_gFd. split; [reflexivity|lia].
  - unfold AVPipeOpenOutput. destruct (get st h); simpl; [|left; split; [reflexivity|lia]].
    rewrite wrap64_id by (unfold INT64_MAX in *; lia).
    destruct (valid_type t); simpl; [|left; split; [reflexivity|lia]].
    destruct op; simpl.
    + right. destruct (Z.leb_spec 0 (gFd st + 1)); [split; reflexivity|lia].
    + left; split; [reflexivity|lia].
Qed.

Lemma run_go_slots ops : forall st,
  0 <= gFd st -> gFd st + Z.of_nat (length ops) <= INT64_MAX ->
  StronglySorted Z.lt (fst (run_go ops st)) /\
  Forall (fun x => gFd st < x) (fst (run_go ops st)).
Proof.
  induction ops as [|o ops IH]; intros st H0 Hb; simpl; [split; constructor|].
  simpl length in Hb.
  pose proof (go_step_slot o st ltac:(lia)) as Hs.
  destruct (go_step o st) as [r st1]; simpl in *.
  assert (Hc : gFd st <= gFd st1 <= gFd st + 1) by (destruct Hs as [[_ ?]|[_ ?]]; lia).
  destruct (IH st1 ltac:(lia) ltac:(lia)) as [Hsort Hall].
  destruct (run_go ops st1) as [ids st2]; simpl in *.
  destruct Hs as [[-> _] | [-> Heq]]; simpl.
  - split; [exact Hsort|]. eapply Forall_impl; [exact Hall|]. simpl; lia.
  - split.
    + constructor; [exact Hsort|]. eapply Forall_impl; [exact Hall|]. simpl; lia.
    + constructor; [lia|]. eapply Forall_impl; [exact Hall|]. simpl; lia.
Qed.

End GoSlotsFacts.

(* ------------------------------------------------------------------ *)
(* Claims about slot ids, naming and the live input path               *)
(* ------------------------------------------------------------------ *)

Module StreamClaims.

Section Adapter.
Import UdpAdapter UdpAdapterFacts.

(** C7: for every queue of datagrams and every list of read sizes, the
    bytes handed out by successive in_read_packet calls followed by the
    bytes still pending are exactly the concatenated payloads in FIFO
    order (nothing lost or duplicated); with positive read sizes and
    enough reads the reads return the whole concatenation; and each read
    returns min(len(buf), unread bytes of the current packet) bytes. *)
Theorem C7_reads_reassemble :
  forall (q : list packet) (bs : list nat),
    concat (fst (read_all bs (init q))) ++ pending (snd (read_all bs (init q))) = concat q /\
    (Forall (fun b => 1 <= b)%nat bs ->
     (length (concat q) + length q <= length bs)%nat ->
     concat (fst (read_all bs (init q))) = concat q) /\
    (forall (b : nat) (c : rstate), adapter_wf c ->
       match fst (in_read_packet b c) with
       | Some out => Some (length out) = option_map (Nat.min b) (head_remaining c)
       | None => head_remaining c = None
       end).
Proof.
  intros q bs.
  assert (Hw : adapter_wf (init q)) by exact I.
  destruct (read_all_pending bs (init q) Hw) as [Hp _].
  split; [exact Hp|]. split.
  - intros Hbs Hl.
    pose proof (read_all_drains bs (init q) Hw Hbs) as D.
    rewrite D in Hp; [rewrite app_nil_r in Hp; exact Hp|].
    unfold measure; simpl. exact Hl.
  - intros b c Hc. apply read_amount. exact Hc.
Qed.

Lemma C7_reads_reassemble_witness :
  concat (fst (read_all [1; 17; 64; 5; 1; 1]%nat
                 (init [[Byte.x01; Byte.x02; Byte.x03]; [Byte.x04]]))) =
  concat [[Byte.x01; Byte.x02; Byte.x03]; [Byte.x04]].
Proof.
  apply (proj1 (proj2 (C7_reads_reassemble
           [[Byte.x01; Byte.x02; Byte.x03]; [Byte.x04]] [1; 17; 64; 5; 1; 1]%nat))).
  - repeat constructor.
  - simpl. lia.
Defined.

End Adapter.

Section Live.
Import LiveReader.

Definition recv_ok (n : Z) : udp_event := EvRecv n n false.

Lemma readUdp_loop_recvs ns : forall b rest,
  readUdp_loop b (map recv_ok ns ++ rest) = readUdp_loop (b + fold_right Z.add 0 ns) rest.
Proof.
  induction ns as [|n ns IH]; intros b rest; simpl.
  - rewrite Z.add_0_r. reflexivity.
  - rewrite Z.eqb_refl. simpl. rewrite IH. f_equal. lia.
Qed.

Lemma readUdp_loop_timeouts k : forall rest,
  readUdp_loop 0 (repeat EvTimeout k ++ rest) = readUdp_loop 0 rest.
Proof. induction k as [|k IH]; intros rest; simpl; auto. Qed.

Lemma udp_thread_func_prefix lens : forall evs,
  udp_thread_func (map Readable lens ++ NotReadable :: evs) = (lens, true).
Proof.
  induction lens as [|l lens IH]; intros evs; simpl; [reflexivity|].
  rewrite IH. reflexivity.
Qed.

(** C6 (counterexample): a datagram of 188 bytes followed by a read
    timeout makes readUdp return EAV_IO_TIMEOUT, which is pushed on
    ErrChannel; and the C test reader udp_thread_func leaves its loop on
    a timeout even when nothing has arrived yet. *)
Lemma C6_timeout_reports_error :
  readUdp [EvRecv 188 188 false; EvTimeout] = Returned (Some EAV_IO_TIMEOUT) /\
  err_channel (readUdp [EvRecv 188 188 false; EvTimeout]) = [EAV_IO_TIMEOUT] /\
  udp_thread_func [NotReadable; Readable 188] = ([], true).
Proof. repeat split. Qed.

(** C6 (amended): in readUdp, a timeout after datagrams carrying a
    positive number of bytes ends the loop: the writer is closed and the
    error EAV_IO_TIMEOUT is returned and pushed on ErrChannel; timeouts
    while no byte has been read are skipped and the loop keeps waiting.
    The C test reader udp_thread_func leaves its loop on the first
    timeout, after whatever datagrams preceded it. *)
Theorem C6_reader_timeouts :
  (forall (ns : list Z) (evs : list udp_event),
     0 < fold_right Z.add 0 ns ->
     readUdp (map recv_ok ns ++ EvTimeout :: evs) = Returned (Some EAV_IO_TIMEOUT) /\
     writer_closed (readUdp (map recv_ok ns ++ EvTimeout :: evs)) = true /\
     err_channel (readUdp (map recv_ok ns ++ EvTimeout :: evs)) = [EAV_IO_TIMEOUT]) /\
  (forall (k : nat) (evs : list udp_event),
     readUdp (repeat EvTimeout k ++ evs) = readUdp evs /\
     readUdp (repeat EvTimeout k) = Waiting 0) /\
  (forall (lens : list Z) (evs : list sock_event),
     udp_thread_func (map Readable lens ++ NotReadable :: evs) = (lens, true)).
Proof.
  split; [|split].
  - intros ns evs Hpos. unfold readUdp.
    rewrite readUdp_loop_recvs, Z.add_0_l. simpl.
    destruct (Z.eqb_spec (fold_right Z.add 0 ns) 0); [lia|]. repeat split.
  - intros k evs. unfold readUdp. split.
    + apply readUdp_loop_timeouts.
    + rewrite <- (app_nil_r (repeat EvTimeout k)). rewrite readUdp_loop_timeouts. reflexivity.
  - apply udp_thread_func_prefix.
Qed.

Lemma C6_reader_timeouts_witness :
  readUdp (map recv_ok [188; 188] ++ EvTimeout :: []) = Returned (Some EAV_IO_TIMEOUT).
Proof.
  apply (proj1 C6_reader_timeouts [188; 188] []). simpl. lia.
Defined.

End Live.

Section Slots.
Import GoIO GoSlots GoSlotsFacts.

(** C8 (counterexample): the slot id formula of avpipe_handler.go,
    (seg_index-1)*2 + stream_index, gives slot 2 both to (stream 2,
    segment 1) and to (stream 0, segment 2). *)
Lemma C8_legacy_slot_collision :
  LegacyIO.slot_id 2 1 = 2 /\ LegacyIO.slot_id 0 2 = 2.
Proof. split; reflexivity. Qed.

(** C8 (amended): in the Go dispatcher every slot id returned by
    AVPipeOpenOutput is taken from the global counter gFd, so along any
    interleaving of registry calls and output opens that does not
    overflow the counter, the slot ids returned are strictly increasing
    (pairwise distinct, whatever the stream, segment or kind); the
    legacy formula (seg_index-1)*2 + stream_index is injective only for
    stream indices 0 and 1. *)
Theorem C8_slot_ids_distinct :
  (forall (ops : list go_op) (st : state),
     0 <= gFd st -> gFd st + Z.of_nat (length ops) <= INT64_MAX ->
     StronglySorted Z.lt (fst (run_go ops st)) /\
     Forall (fun x => gFd st < x) (fst (run_go ops st))) /\
  (forall s1 g1 s2 g2 : Z,
     0 <= s1 <= 1 -> 0 <= s2 <= 1 -> 1 <= g1 <= 2 ^ 29 -> 1 <= g2 <= 2 ^ 29 ->
     LegacyIO.slot_id s1 g1 = LegacyIO.slot_id s2 g2 -> s1 = s2 /\ g1 = g2).
Proof.
  split.
  - intros ops st H0 Hb. apply run_go_slots; assumption.
  - intros s1 g1 s2 g2 Hs1 Hs2 Hg1 Hg2 E. unfold LegacyIO.slot_id, wrap32 in E.
    rewrite !Z.mod_small in E by lia. lia.
Qed.

Lemma C8_slot_ids_distinct_witness :
  StronglySorted Z.lt
    (fst (run_go [GReg (OpNew true (OpenOk 1));
                  GOpen 1 0 1 avpipe_manifest (OpenOk 5);
                  GOpen 1 0 1 avpipe_manifest (OpenOk 6);
                  GOpen 1 1 1 avpipe_audio_segment (OpenOk 7)] init_state)).
Proof.
  apply (proj1 C8_slot_ids_distinct); simpl; unfold INT64_MAX; lia.
Defined.

End Slots.

Section Naming.
Import GoIO OutNaming.

(** C9: for every output kind the spec names, out_opener opens the path
    "<dir>/<name>" or "./<dir>/<name>" (dir = ./O/O<n>), where <name> is
    the spec's file name: dash.mpd, master.m3u8, the requested name for
    init/key/m3u outputs, and <prefix><streamIndex>-<segIndex:05d>.<ext>
    with chunk-stream/m4s, segment/mp4 and fsegment/mp4 for DASH, mp4 and
    fmp4 segments. *)
Theorem C9_output_names :
  forall (gfd : Z) (t : stream_type) (url : string) (si sg : Z) (name : string),
    spec_file_name t url si sg = Some name ->
    out_opener_segname gfd t url si sg = Some (out_dir gfd ++ "/" ++ name)%string \/
    out_opener_segname gfd t url si sg = Some ("./" ++ out_dir gfd ++ "/" ++ name)%string.
Proof.
  intros gfd t url si sg name H.
  destruct t; simpl in H; try discriminate; injection H as <-;
    first [left; reflexivity | right; reflexivity].
Qed.

Lemma C9_output_names_witness :
  out_opener_segname 3 avpipe_video_segment "init.mp4" 0 12 =
    Some (out_dir 3 ++ "/" ++ "chunk-stream0-00012.m4s")%string \/
  out_opener_segname 3 avpipe_video_segment "init.mp4" 0 12 =
    Some ("./" ++ out_dir 3 ++ "/" ++ "chunk-stream0-00012.m4s")%string.
Proof.
  apply (C9_output_names 3 avpipe_video_segment "init.mp4" 0 12). reflexivity.
Defined.

End Naming.

End StreamClaims.

(* ================================================================== *)
(* Further properties of the code                                       *)
(* ================================================================== *)

Module SeekFacts.
Import GoIO CGlue GoOut CSeek.

Lemma land_65535_shift w k : Z.land (w + k * 65536) 65535 = Z.land w 65535.
Proof.
  change 65535 with (Z.ones 16). rewrite !Z.land_ones by lia.
  change 65536 with (2 ^ 16). apply Z.mod_add. lia.
Qed.

(** in_seek on an unregistered session handle, or when the backend's
    Seek fails, returns -1 and leaves the context untouched. *)
Theorem in_seek_failure_keeps_ctx st sz h offset whence n err c :
  (get st h = None \/ err = true) ->
  in_seek st sz h offset whence n err c = (-1, c).
Proof.
  intros H. unfold in_seek, AVPipeSeekInput.
  destruct H as [H | ->]; [rewrite H | destruct (get st h)]; reflexivity.
Qed.

Lemma in_seek_failure_keeps_ctx_witness :
  in_seek Scenarios.one_output 100 7 5 SEEK_SET 5 false Scenarios.ctx0 = (-1, Scenarios.ctx0).
Proof. apply in_seek_failure_keeps_ctx. left. vm_compute. reflexivity. Defined.

(** in_seek masks whence with 0xFFFF: adding any multiple of AVSEEK_SIZE
    (the AVSEEK_SIZE and AVSEEK_FORCE flags) does not change its result,
    and a bare AVSEEK_SIZE size query is handled as SEEK_SET. *)
Theorem in_seek_whence_mask st sz h offset whence n err c k :
  in_seek st sz h offset (whence + k * AVSEEK_SIZE) n err c =
    in_seek st sz h offset whence n err c /\
  in_seek st sz h offset AVSEEK_SIZE n err c = in_seek st sz h offset SEEK_SET n err c.
Proof.
  unfold in_seek, seek_pos, AVSEEK_SIZE. rewrite land_65535_shift. split; reflexivity.
Qed.

(** out_seek moves write_pos according to whence even when
    AVPipeSeekOutput reports -1, for an unregistered session or a failed
    backend Seek; in_seek leaves read_pos in those cases. *)
Theorem out_seek_moves_on_failure st sz h fd offset whence n err c :
  (get st h = None \/
   (exists hh o, get st h = Some hh /\ outTable hh !! fd = Some o /\ err = true)) ->
  out_seek st sz h fd offset whence n err c =
    (Ret (-1), mkIoctx (read_bytes c) (read_pos c) (written_bytes c)
                       (seek_pos sz (write_pos c) offset whence)).
Proof.
  intros [H | (hh & o & H & Ho & ->)]; unfold out_seek, AVPipeSeekOutputP; rewrite H;
    [|rewrite Ho]; reflexivity.
Qed.

Lemma out_seek_moves_on_failure_witness :
  out_seek Scenarios.one_output 1000 7 1 40 SEEK_SET 0 false Scenarios.ctx0 =
    (Ret (-1), mkIoctx 0 0 0 40).
Proof. apply out_seek_moves_on_failure. left. vm_compute. reflexivity. Defined.

(** On a live session, for a slot fd never opened on it, the Go write,
    seek and close entry points panic on the nil output handler, while
    AVPipeStatOutput returns -1. *)
Theorem unopened_slot_calls st h hh fd n err :
  get st h = Some hh -> outTable hh !! fd = None ->
  AVPipeWriteOutput h fd n err st = Panic /\
  AVPipeSeekOutputP h fd n err st = Panic /\
  AVPipeCloseOutputP h fd err st = Panic /\
  AVPipeStatOutput h fd err st = -1.
Proof.
  intros H Ho.
  unfold AVPipeWriteOutput, AVPipeSeekOutputP, AVPipeCloseOutputP, AVPipeStatOutput.
  rewrite H, Ho. repeat split.
Qed.

Lemma unopened_slot_calls_witness :
  AVPipeWriteOutput 1 2 188 false Scenarios.one_output = Panic /\
  AVPipeSeekOutputP 1 2 188 false Scenarios.one_output = Panic /\
  AVPipeCloseOutputP 1 2 false Scenarios.one_output = Panic /\
  AVPipeStatOutput 1 2 false Scenarios.one_output = -1.
Proof.
  apply (unopened_slot_calls Scenarios.one_output 1 (mkIOHandler 1 (<[1 := 10]> ∅)) 2);
    vm_compute; reflexivity.
Defined.

End SeekFacts.

Module ReportFacts.
Import GoIO CGlue ReadReport.

Lemma sum_pos_cons r rs :
  sum_pos (r :: rs) = (if 0 <? r then r else 0) + sum_pos rs.
Proof. unfold sum_pos. cbn [List.filter fold_right]. destruct (0 <? r); cbn [fold_right]; lia. Qed.

Lemma last_default {A} (x : A) l d d' : List.last (x :: l) d = List.last (x :: l) d'.
Proof.
  revert x. induction l as [|y l IH]; intros x; [reflexivity|].
  change (List.last (y :: l) d = List.last (y :: l) d'). apply IH.
Qed.

Lemma rep_step B st h n e c rep :
  0 <= B -> 0 <= read_bytes c - rep <= B ->
  let '(r, c1, rep1, s) := in_read_packet_rep B st h n e c rep in
  read_bytes c1 = read_bytes c + (if 0 <? r then r else 0) /\
  0 <= read_bytes c1 - rep1 <= B /\
  ((s = [] /\ rep1 = rep) \/ (s = [rep1] /\ rep + B < rep1)).
Proof.
  intros HB Hc. unfold in_read_packet_rep, in_read_packet, AVPipeReadInput.
  destruct (get st h) as [hh|] eqn:G.
  - destruct e.
    + simpl. destruct (Z.gtb_spec (read_bytes c - rep) B); [lia|]. simpl.
      split; [lia|]. split; [lia|]. left; auto.
    + destruct (Z.gtb_spec n 0) as [Hn|Hn]; simpl.
      * destruct (Z.gtb_spec (read_bytes c + n - rep) B); simpl;
          (destruct (Z.ltb_spec 0 n); [|lia]).
        -- split; [lia|]. split; [lia|]. right; split; [reflexivity|lia].
        -- split; [lia|]. split; [lia|]. left; auto.
      * destruct (Z.gtb_spec (read_bytes c - rep) B); [lia|]. simpl.
        split; [lia|]. split; [lia|]. left; auto.
  - simpl. destruct (Z.gtb_spec (read_bytes c - rep) B); [lia|]. simpl.
    split; [lia|]. split; [lia|]. left; auto.
Qed.

(** Over any sequence of reads, with BYTES_READ_REPORT >= 0 and an
    unreported count read_bytes - read_reported starting in
    [0, BYTES_READ_REPORT]: read_bytes grows by exactly the sum of the
    positive values in_read_packet returned, the unreported count stays
    in [0, BYTES_READ_REPORT], the values passed to the input's Stat
    increase by more than BYTES_READ_REPORT each, and read_reported ends
    at the last of them. *)
Theorem read_loop_reporting B st h reads : forall c rep,
  0 <= B -> 0 <= read_bytes c - rep <= B ->
  let '(rs, c', rep', reps) := read_loop B st h reads c rep in
  read_bytes c' = read_bytes c + sum_pos rs /\
  0 <= read_bytes c' - rep' <= B /\
  Sorted (fun a b => a + B < b) (rep :: reps) /\
  List.last (rep :: reps) rep = rep'.
Proof.
  induction reads as [|[n e] reads IH]; intros c rep HB Hc; simpl.
  - split; [unfold sum_pos; simpl; lia|]. split; [lia|].
    split; [repeat constructor | reflexivity].
  - pose proof (rep_step B st h n e c rep HB Hc) as Hs.
    destruct (in_read_packet_rep B st h n e c rep) as [[[r c1] rep1] s] eqn:E1.
    destruct Hs as (Hb1 & Hr1 & Hsh).
    specialize (IH c1 rep1 HB Hr1).
    destruct (read_loop B st h reads c1 rep1) as [[[rs c2] rep2] s2] eqn:E2.
    destruct IH as (Hb2 & Hr2 & Hsort & Hlast).
    rewrite sum_pos_cons.
    split; [lia|]. split; [exact Hr2|].
    destruct Hsh as [[-> ->] | [-> Hgt]]; cbn [app].
    + split; [exact Hsort | exact Hlast].
    + split.
      * constructor; [exact Hsort|]. constructor. exact Hgt.
      * change (List.last (rep1 :: s2) rep = rep2).
        rewrite (last_default rep1 s2 rep rep1). exact Hlast.
Qed.

Lemma read_loop_reporting_witness :
  read_loop 100 Scenarios.one_output 1 [(60, false); (60, false); (0, true); (90, false)]
            Scenarios.ctx0 0 =
    ([60; 60; -1; 90], mkIoctx 210 210 0 0, 120, [120]) /\
  (let '(rs, c', rep', reps) :=
     read_loop 100 Scenarios.one_output 1 [(60, false); (60, false); (0, true); (90, false)]
               Scenarios.ctx0 0 in
   read_bytes c' = read_bytes Scenarios.ctx0 + sum_pos rs /\
   0 <= read_bytes c' - rep' <= 100 /\
   Sorted (fun a b => a + 100 < b) (0 :: reps) /\
   List.last (0 :: reps) 0 = rep').
Proof.
  split; [vm_compute; reflexivity|].
  apply read_loop_reporting; vm_compute; [discriminate | split; discriminate].
Defined.

End ReportFacts.

Module TxFacts.
Import GoIO CGlue CGlueFacts TxCtl GoIOFacts.

Lemma wrap32_id (z : Z) : - 2 ^ 31 <= z <= 2 ^ 31 - 1 -> wrap32 z = z.
Proof. unfold wrap32; intros H. rewrite Z.mod_small by lia. lia. Qed.

Lemma in_closer_get x ce st : get (in_closer x ce st) x = None.
Proof.
  unfold in_closer, AVPipeCloseInput. destruct (get st x) eqn:G; simpl; [|exact G].
  unfold get; simpl. rewrite lookup_insert_eq. reflexivity.
Qed.

Lemma in_closer_get_ne x y ce st : x <> y -> get (in_closer x ce st) y = get st y.
Proof.
  intros Hne. unfold in_closer, AVPipeCloseInput. destruct (get st x); simpl; [|reflexivity].
  unfold get; simpl. rewrite lookup_insert_ne by congruence. reflexivity.
Qed.

(* registering a fresh handle and closing it again leaves the live
   sessions as they were *)
Lemma register_then_close st inp ce k :
  gHandlers st !! (gHandleNum st + 1) = None ->
  get (in_closer (gHandleNum st + 1) ce
         (mkState (<[gHandleNum st + 1 := Some (mkIOHandler inp ∅)]> (gHandlers st))
                  (gHandleNum st + 1) (gFd st))) k = get st k.
Proof.
  intros Hn. destruct (decide (k = gHandleNum st + 1)) as [->|Hne].
  - rewrite in_closer_get. unfold get. rewrite Hn. reflexivity.
  - rewrite in_closer_get_ne by congruence. unfold get; simpl.
    rewrite lookup_insert_ne by congruence. reflexivity.
Qed.

Lemma free_found h tbl i e :
  find_handle h tbl = Some (i, e) -> ctx_index e = Z.of_nat i ->
  (live_with h tbl <= 1)%nat ->
  tx_table_free h tbl = <[i := None]> tbl /\ find_handle h (<[i := None]> tbl) = None.
Proof.
  intros Hf Hc Hl. unfold tx_table_free. rewrite Hf, Hc, Z.eqb_refl. split; [reflexivity|].
  apply find_handle_spec in Hf as [Hi He].
  pose proof (live_with_insert h tbl i (Some e) None Hi) as L.
  simpl in L. rewrite He, Z.eqb_refl in L.
  apply find_handle_none. lia.
Qed.

Lemma find_handle_put h tbl : forall (i : nat) e,
  live_with h tbl = 0%nat -> tbl !! i = Some None -> handle e = h ->
  find_handle h (<[i := Some e]> tbl) = Some (i, e).
Proof.
  induction tbl as [|o tbl IH]; intros i e Hl Hi He; [discriminate|].
  destruct i as [|i].
  - cbn in Hi. inversion Hi; subst.
    change (<[0%nat := Some e]> (None :: tbl)) with (Some e :: tbl).
    cbn [find_handle]. rewrite Z.eqb_refl. reflexivity.
  - change (<[S i := Some e]> (o :: tbl)) with (o :: <[i := Some e]> tbl).
    cbn in Hi. destruct o as [e0|]; cbn in Hl; cbn [find_handle].
    + revert Hl. destruct (Z.eqb_spec (handle e0) h); intros Hl; [lia|].
      pose proof (IH i e ltac:(lia) Hi He) as IH'. unfold tx_table in IH'.
      rewrite IH'. reflexivity.
    + pose proof (IH i e ltac:(lia) Hi He) as IH'. unfold tx_table in IH'.
      rewrite IH'. reflexivity.
Qed.

(* the state a successful TxInit leaves *)
Lemma TxInit_ok url inp r ctx close_err cs i :
  String.eqb url "" = false ->
  first_free (table cs) = Some i ->
  0 <= r <= 2 ^ 31 - 1 ->
  0 <= gHandleNum (go cs) < INT64_MAX ->
  TxInit true url true (OpenOk inp) true r ctx close_err cs =
    (r, ErrNil,
     mkCState (mkState (<[gHandleNum (go cs) + 1 := Some (mkIOHandler inp ∅)]> (gHandlers (go cs)))
                       (gHandleNum (go cs) + 1) (gFd (go cs)))
              (<[i := Some (mkEntry r ctx (Z.of_nat i))]> (table cs))).
Proof.
  intros Hu Hf Hr Hn.
  unfold TxInit, tx_init. rewrite Hu. cbn [negb].
  unfold NewIOHandler. cbn [negb]. rewrite wrap64_id by (unfold INT64_MAX in *; lia).
  cbn zeta.
  destruct (Z.leb_spec (gHandleNum (go cs) + 1) 0); [lia|]. cbn [negb].
  unfold tx_table_put. rewrite Hf. rewrite wrap32_id by lia.
  destruct (Z.ltb_spec r 0); [lia|].
  unfold to_u32. rewrite (Z.mod_small r) by lia.
  destruct (Z.ltb_spec r 0); [lia|].
  rewrite wrap32_id by lia. simpl.
  destruct (Z.ltb_spec r 0); [lia|]. reflexivity.
Qed.

(** tx_run on a handle found at slot i whose context records index i,
    with no other live entry carrying that handle: it returns 0 or -1
    as avpipe_tx succeeded, closes the Go input of the context and
    frees the slot; the handle is then no longer found, and a second
    tx_run on it returns -1 and changes nothing. *)
Theorem tx_run_once tx_ok close_err tx_ok' close_err' inctx_of h cs i e :
  find_handle h (table cs) = Some (i, e) -> ctx_index e = Z.of_nat i ->
  (live_with h (table cs) <= 1)%nat ->
  let '(rc, cs1) := tx_run tx_ok close_err inctx_of h cs in
  rc = (if tx_ok then 0 else -1) /\
  get (go cs1) (inctx_of (txctx e)) = None /\
  tx_table_find h (table cs1) = None /\
  tx_run tx_ok' close_err' inctx_of h cs1 = (-1, cs1).
Proof.
  intros Hf Hc Hl. destruct (free_found h (table cs) i e Hf Hc Hl) as [Hfree Hnone].
  unfold tx_run at 1, tx_table_find at 1. rewrite Hf. cbn.
  split; [reflexivity|]. split; [apply in_closer_get|].
  rewrite Hfree. unfold tx_table_find. rewrite Hnone. split; [reflexivity|].
  unfold tx_run, tx_table_find. cbn. rewrite Hnone. reflexivity.
Qed.

Lemma tx_run_once_witness :
  let '(rc, cs1) := tx_run true false (fun _ => 1) 7 MoreScenarios.one_tx in
  rc = (if true then 0 else -1) /\
  get (go cs1) ((fun _ : Z => 1) (txctx (mkEntry 7 1 0))) = None /\
  tx_table_find 7 (table cs1) = None /\
  tx_run false false (fun _ => 1) 7 cs1 = (-1, cs1).
Proof.
  apply (tx_run_once true false false false (fun _ => 1) 7 MoreScenarios.one_tx 0%nat
           (mkEntry 7 1 0)); vm_compute; [reflexivity | reflexivity | lia].
Defined.

(** TxCancel reports an error exactly when the handle is found at a slot
    whose context records a different index; an unknown handle (never
    issued, or already run) gives nil, and on a table where every context
    records its own slot TxCancel always gives nil. *)
Theorem TxCancel_error h cs :
  (TxCancel h cs = ErrSet <->
   exists i e, find_handle h (table cs) = Some (i, e) /\ ctx_index e <> Z.of_nat i) /\
  (tbl_wf (table cs) -> TxCancel h cs = ErrNil).
Proof.
  unfold TxCancel, tx_cancel, tx_table_cancel. split.
  - destruct (find_handle h (table cs)) as [[i e]|] eqn:E.
    + destruct (Z.eqb_spec (ctx_index e) (Z.of_nat i)) as [Hq|Hq]; simpl.
      * split; [discriminate|]. intros (i' & e' & H' & Hn). inversion H'; subst. contradiction.
      * split; [intros _; exists i, e; auto | reflexivity].
    + simpl. split; [discriminate|]. intros (i' & e' & H' & _). discriminate.
  - intros Hw. destruct (find_handle h (table cs)) as [[i e]|] eqn:E; [|reflexivity].
    apply find_handle_spec in E as [Hi _]. rewrite (Hw i e Hi), Z.eqb_refl. reflexivity.
Qed.

Lemma TxCancel_error_witness : TxCancel 7 MoreScenarios.bad_tx = ErrSet.
Proof.
  apply (proj2 (proj1 (TxCancel_error 7 MoreScenarios.bad_tx))).
  exists 0%nat, (mkEntry 7 1 3). split; [vm_compute; reflexivity | vm_compute; discriminate].
Defined.





(** tx opens a Go session, and whether the file name is empty, the
    opener, avpipe_init or avpipe_tx fails, or all succeed, it closes that
    session before returning: the live sessions afterwards are those
    before the call. It returns 0 exactly when every step succeeded. *)
Theorem tx_closes_session fo os op io to ce st :
  get st 0 = None ->
  gHandlers st !! (gHandleNum st + 1) = None ->
  0 <= gHandleNum st < INT64_MAX ->
  let '(rc, st') := tx fo os op io to ce st in
  (forall k, get st' k = get st k) /\
  (rc = 0 <-> fo = true /\ os = true /\ (exists inp, op = OpenOk inp) /\
              io = true /\ to = true).
Proof.
  intros H0 Hfresh Hn. unfold tx.
  destruct fo; cbn [negb]; cycle 1.
  { split; [reflexivity|]. split; [lia | intros (H & _); discriminate]. }
  destruct os; unfold NewIOHandler; cbn [negb].
  2: { cbn. unfold in_closer, AVPipeCloseInput. rewrite H0. split; [reflexivity|].
       split; [lia | intros (_ & H & _); discriminate]. }
  rewrite wrap64_id by (unfold INT64_MAX in *; lia).
  destruct op as [inp|].
  - destruct (Z.leb_spec (gHandleNum st + 1) 0); [lia|]. cbn zeta.
    cbn [gHandlers gHandleNum gFd].
    split; [intros k; apply register_then_close; exact Hfresh|].
    destruct io, to; cbn; split; try lia; try (intros (_ & _ & _ & H & H'); discriminate);
      eauto 10.
  - cbn. unfold in_closer, AVPipeCloseInput.
    change (get (mkState (gHandlers st) (gHandleNum st + 1) (gFd st)) 0) with (get st 0).
    rewrite H0. split; [reflexivity|]. split; [lia | intros (_ & _ & [inp H] & _); discriminate].
Qed.

Lemma tx_closes_session_witness :
  let '(rc, st') := tx true true (OpenOk 3) true false false Scenarios.one_output in
  (forall k, get st' k = get Scenarios.one_output k) /\
  (rc = 0 <-> true = true /\ true = true /\ (exists inp, OpenOk 3 = OpenOk inp) /\
              true = true /\ false = true).
Proof.
  apply tx_closes_session; [vm_compute; reflexivity | vm_compute; reflexivity
                          | vm_compute; split; [discriminate | reflexivity]].
Defined.

End TxFacts.

Module OpenerFacts.
Import GoIO TxCtl Openers GoIOFacts.

Lemma url_input_InitUrl_ne url url' i o os :
  url' <> url ->
  url_input_opener url' (InitUrlIOHandler url i o os) = url_input_opener url' os.
Proof.
  intros Hne. unfold url_input_opener, InitUrlIOHandler; simpl.
  destruct i; [rewrite lookup_insert_ne by congruence|]; reflexivity.
Qed.

Lemma url_output_InitUrl_ne url url' i o os :
  url' <> url ->
  url_output_opener url' (InitUrlIOHandler url i o os) = url_output_opener url' os.
Proof.
  intros Hne. unfold url_output_opener, InitUrlIOHandler; simpl.
  destruct o; [rewrite lookup_insert_ne by congruence|]; reflexivity.
Qed.

Lemma forget_url_same url os :
  url_input_opener url (forget_url url os) = gInputOpener os /\
  url_output_opener url (forget_url url os) = gOutputOpener os.
Proof.
  unfold url_input_opener, url_output_opener, forget_url; simpl.
  rewrite !lookup_delete_eq. split; reflexivity.
Qed.

Lemma forget_url_ne url url' os :
  url' <> url ->
  url_input_opener url' (forget_url url os) = url_input_opener url' os /\
  url_output_opener url' (forget_url url os) = url_output_opener url' os.
Proof.
  intros Hne. unfold url_input_opener, url_output_opener, forget_url; simpl.
  rewrite !lookup_delete_ne by congruence. split; reflexivity.
Qed.

Lemma Tx_openers url opened io to ce os st :
  snd (Tx true url opened io to ce os st) = forget_url url os.
Proof.
  unfold Tx; simpl. destruct (resolve url os opened) as [b op].
  destruct (tx _ b op io to ce st). reflexivity.
Qed.

(** InitUrlIOHandler url i o registers the two openers for url alone: url
    then resolves to them (NewIOHandler opens its input with i), every
    other url resolves as before whatever is registered, and two nil
    openers leave the opener tables unchanged. *)
Theorem InitUrlIOHandler_scoped url url' i o os opened :
  url' <> url ->
  url_input_opener url (InitUrlIOHandler url (Some i) (Some o) os) = Some i /\
  url_output_opener url (InitUrlIOHandler url (Some i) (Some o) os) = Some o /\
  resolve url (InitUrlIOHandler url (Some i) (Some o) os) opened = (true, opened i) /\
  (forall i' o', resolve url' (InitUrlIOHandler url i' o' os) opened =
                 resolve url' os opened) /\
  InitUrlIOHandler url None None os = os.
Proof.
  intros Hne.
  assert (Hi : url_input_opener url (InitUrlIOHandler url (Some i) (Some o) os) = Some i)
    by (unfold url_input_opener; simpl; rewrite lookup_insert_eq; reflexivity).
  assert (Ho : url_output_opener url (InitUrlIOHandler url (Some i) (Some o) os) = Some o)
    by (unfold url_output_opener; simpl; rewrite lookup_insert_eq; reflexivity).
  split; [exact Hi|]. split; [exact Ho|]. split.
  - unfold resolve. rewrite Hi, Ho. reflexivity.
  - split.
    + intros i' o'. unfold resolve.
      rewrite url_input_InitUrl_ne, url_output_InitUrl_ne by exact Hne. reflexivity.
    + destruct os; reflexivity.
Qed.

Lemma InitUrlIOHandler_scoped_witness :
  let os := mkOpeners ∅ ∅ None None in
  url_input_opener "a.mp4" (InitUrlIOHandler "a.mp4" (Some 1) (Some 2) os) = Some 1 /\
  url_output_opener "a.mp4" (InitUrlIOHandler "a.mp4" (Some 1) (Some 2) os) = Some 2 /\
  resolve "a.mp4" (InitUrlIOHandler "a.mp4" (Some 1) (Some 2) os) (fun x => OpenOk x) =
    (true, OpenOk 1) /\
  (forall i' o', resolve "b.mp4" (InitUrlIOHandler "a.mp4" i' o' os) (fun x => OpenOk x) =
                 resolve "b.mp4" os (fun x => OpenOk x)) /\
  InitUrlIOHandler "a.mp4" None None os = os.
Proof.
  apply (InitUrlIOHandler_scoped "a.mp4" "b.mp4" 1 2 (mkOpeners ∅ ∅ None None)
           (fun x => OpenOk x)).
  discriminate.
Defined.

(** Tx with parameters deletes url's own openers whatever its outcome:
    afterwards url resolves to the global openers, while the global
    openers and every other url resolve as before. Without parameters
    Tx returns -1 and changes nothing. *)
Theorem Tx_forgets_url_openers url opened io to ce os st :
  (let '(_, _, os') := Tx true url opened io to ce os st in
   url_input_opener url os' = gInputOpener os /\
   url_output_opener url os' = gOutputOpener os /\
   gInputOpener os' = gInputOpener os /\ gOutputOpener os' = gOutputOpener os /\
   (forall url', url' <> url ->
      url_input_opener url' os' = url_input_opener url' os /\
      url_output_opener url' os' = url_output_opener url' os)) /\
  Tx false url opened io to ce os st = (-1, st, os).
Proof.
  split; [|reflexivity].
  pose proof (Tx_openers url opened io to ce os st) as E.
  destruct (Tx true url opened io to ce os st) as [[rc st'] os']. simpl in E. subst os'.
  destruct (forget_url_same url os) as [H1 H2].
  split; [exact H1|]. split; [exact H2|]. split; [reflexivity|]. split; [reflexivity|].
  intros url' Hne. apply forget_url_ne. exact Hne.
Qed.



(** AVPipeOpenOutput opens outputs with the global output opener only:
    when url has its own input and output openers and the input opens,
    NewIOHandler creates the session with the next handle number, yet with
    a nil global output opener every AVPipeOpenOutput of a valid stream
    type on that session panics. *)
Theorem url_output_opener_unused url os opened st i o inp si sg t opened' :
  gURLInputOpeners os !! url = Some i ->
  gURLOutputOpeners os !! url = Some o ->
  gOutputOpener os = None ->
  opened i = OpenOk inp ->
  0 <= gHandleNum st < INT64_MAX ->
  valid_type t = true ->
  let '(h, st1) := NewIOHandlerU url os opened st in
  h = gHandleNum st + 1 /\ fst (AVPipeOpenOutputU os h si sg t opened' st1) = Panic.
Proof.
  intros Hi Ho Hg Hop Hn Ht.
  unfold NewIOHandlerU, resolve, url_input_opener, url_output_opener.
  rewrite Hi, Ho, Hop. unfold NewIOHandler. cbn [negb].
  rewrite wrap64_id by (unfold INT64_MAX in *; lia).
  split; [reflexivity|].
  unfold AVPipeOpenOutputU, get. cbn. rewrite lookup_insert_eq. rewrite Ht, Hg.
  reflexivity.
Qed.

Lemma url_output_opener_unused_witness :
  let os := mkOpeners {[ "a.mp4" := 1 ]} {[ "a.mp4" := 2 ]} (Some 3) None in
  let '(h, st1) := NewIOHandlerU "a.mp4" os (fun x => OpenOk x) init_state in
  h = gHandleNum init_state + 1 /\
  fst (AVPipeOpenOutputU os h 0 1 avpipe_video_segment (fun x => OpenOk x) st1) = Panic.
Proof.
  apply (url_output_opener_unused "a.mp4" _ (fun x => OpenOk x) init_state 1 2 1);
    [reflexivity | reflexivity | reflexivity | reflexivity | vm_compute; split; [discriminate | reflexivity] | reflexivity].
Defined.

End OpenerFacts.

Module StreamFacts.
Import StreamArr.

Lemma map_lookup {A B} (f : A -> B) (l : list A) (i : nat) :
  map f l !! i = option_map f (l !! i).
Proof. revert i; induction l as [|x l IH]; intros [|i]; simpl; auto. Qed.

Lemma find_app {A} (f : A -> bool) (l1 l2 : list A) :
  find f (l1 ++ l2) = match find f l1 with Some x => Some x | None => find f l2 end.
Proof. induction l1 as [|x l1 IH]; simpl; [|destruct (f x)]; auto. Qed.

Lemma fold_max_bounds (l : list Z) :
  0 <= fold_right Z.max 0 l /\ forall x, In x l -> x <= fold_right Z.max 0 l.
Proof.
  induction l as [|y l [H0 H1]]; simpl; [split; [lia | intros _ []]|].
  split; [lia|]. intros x [<-|Hx]; [lia|]. specialize (H1 x Hx). lia.
Qed.

Section Facts.
Variable Others : Type.
Variable others_zero : Others.

Let step (acc : option (list (StreamInfo Others))) (v : StreamInfo Others) :=
  match acc with Some a => set_at a v | None => None end.

Lemma max_idx_max (s : list (StreamInfo Others)) :
  max_idx s = fold_right Z.max 0 (map StreamIndex s).
Proof.
  unfold max_idx.
  assert (E : forall m, fold_left (fun m v => if StreamIndex v >? m then StreamIndex v else m) s m
                        = fold_left Z.max (map StreamIndex s) m).
  { induction s as [|v s IH]; intros m; simpl; [reflexivity|]. rewrite <- IH. f_equal.
    destruct (Z.gtb_spec (StreamIndex v) m); lia. }
  rewrite E. apply fold_symmetric; [exact Z.max_assoc | intros; apply Z.max_comm].
Qed.

Lemma fold_step_none (s : list (StreamInfo Others)) : fold_left step s None = None.
Proof. induction s; simpl; auto. Qed.

Lemma fold_step_neg (s : list (StreamInfo Others)) : forall acc,
  (exists v, In v s /\ StreamIndex v < 0) -> fold_left step s acc = None.
Proof.
  induction s as [|w s IH]; intros acc (v & Hin & Hv); [destruct Hin|].
  cbn [fold_left]. destruct Hin as [->|Hin]; [|apply IH; eauto].
  replace (step acc v) with (@None (list (StreamInfo Others))); [apply fold_step_none|].
  destruct acc; [|reflexivity]. unfold step, set_at.
  destruct (Z.leb_spec 0 (StreamIndex v)); [lia | reflexivity].
Qed.

Lemma fold_step_some (s : list (StreamInfo Others)) : forall a,
  (forall v, In v s -> 0 <= StreamIndex v < Z.of_nat (length a)) ->
  exists a', fold_left step s (Some a) = Some a' /\ length a' = length a /\
    forall i, a' !! i = match find (fun v => StreamIndex v =? Z.of_nat i) (rev s) with
                        | Some v => Some v | None => a !! i end.
Proof.
  induction s as [|v s IH]; intros a Hs; [exists a; simpl; auto|].
  assert (Hv := Hs v (or_introl eq_refl)).
  cbn [fold_left]. unfold step at 2, set_at.
  rewrite (proj2 (Z.leb_le _ _) (proj1 Hv)), (proj2 (Z.ltb_lt _ _) (proj2 Hv)). cbn [andb].
  destruct (IH (<[Z.to_nat (StreamIndex v) := v]> a)) as (a' & H1 & H2 & H3).
  { intros w Hw. rewrite length_insert. apply Hs. right. exact Hw. }
  exists a'. split; [exact H1|]. split; [rewrite H2, length_insert; reflexivity|].
  intros i. rewrite H3. cbn [rev]. rewrite find_app.
  destruct (find _ (rev s)); [reflexivity|]. cbn [find].
  destruct (Z.eqb_spec (StreamIndex v) (Z.of_nat i)) as [E|E].
  - replace i with (Z.to_nat (StreamIndex v)) by lia.
    apply list_lookup_insert_eq. lia.
  - apply list_lookup_insert_ne. lia.
Qed.



End Facts.


End StreamFacts.

Module TestProgFacts.
Import TestProg.

Lemma out_write_mem_step d c :
  written_bytes c = Z.of_nat (length (buf c)) ->
  written_bytes c <= bufsz c ->
  Z.of_nat (length d) <= bufsz c ->
  let '(r, c1) := out_write_packet (-1) d 0 c in
  r = Z.of_nat (length d) /\ buf c1 = buf c ++ d /\
  written_bytes c1 = written_bytes c + Z.of_nat (length d) /\
  write_pos c1 = write_pos c + Z.of_nat (length d) /\
  bufsz c <= bufsz c1 /\ written_bytes c1 <= bufsz c1.
Proof.
  intros Hw Hle Hd. unfold out_write_packet. cbn [Z.ltb Z.compare].
  destruct (Z.ltb_spec (bufsz c - written_bytes c) (Z.of_nat (length d))); simpl;
    repeat split; lia.
Qed.

(** Successive writes to a memory output (fd < 0) whose buffer holds the
    written_bytes bytes written so far, within bufsz, each of at most the
    initial bufsz bytes: every write returns its length, the buffer ends
    as the old content followed by all chunks in order, written_bytes and
    write_pos advance by the total, and written_bytes never exceeds the
    (only growing) bufsz. *)
Theorem write_all_memory chunks : forall c,
  written_bytes c = Z.of_nat (length (buf c)) ->
  written_bytes c <= bufsz c ->
  (forall d, In d chunks -> Z.of_nat (length d) <= bufsz c) ->
  let '(rs, c') := write_all chunks c in
  rs = map (fun d => Z.of_nat (length d)) chunks /\
  buf c' = buf c ++ concat chunks /\
  written_bytes c' = Z.of_nat (length (buf c')) /\
  write_pos c' = write_pos c + Z.of_nat (length (concat chunks)) /\
  bufsz c <= bufsz c' /\ written_bytes c' <= bufsz c'.
Proof.
  induction chunks as [|d ds IH]; intros c Hw Hle Hd.
  - simpl. rewrite app_nil_r. repeat split; lia.
  - cbn [write_all].
    pose proof (out_write_mem_step d c Hw Hle (Hd d (or_introl eq_refl))) as S.
    destruct (out_write_packet (-1) d 0 c) as [r c1].
    destruct S as (Hr & Hb & Hw1 & Hp & Hs & Hl).
    specialize (IH c1).
    destruct (write_all ds c1) as [rs c2].
    destruct IH as (Hrs & Hb2 & Hw2 & Hp2 & Hs2 & Hl2).
    + rewrite Hw1, Hb, length_app. lia.
    + exact Hl.
    + intros d' Hd'. specialize (Hd d' (or_intror Hd')). lia.
    + subst r rs. split; [reflexivity|]. cbn [concat].
      split; [rewrite Hb2, Hb, <- app_assoc; reflexivity|]. split; [exact Hw2|].
      rewrite Hp2, Hp, length_app. repeat split; lia.
Qed.

Lemma write_all_memory_witness :
  let '(rs, c') := write_all [[Byte.x01; Byte.x02]; [Byte.x03; Byte.x04; Byte.x05]]
                             (mkOut 4 [Byte.x00] 1 1) in
  rs = map (fun d => Z.of_nat (length d)) [[Byte.x01; Byte.x02]; [Byte.x03; Byte.x04; Byte.x05]] /\
  buf c' = buf (mkOut 4 [Byte.x00] 1 1) ++
           concat [[Byte.x01; Byte.x02]; [Byte.x03; Byte.x04; Byte.x05]] /\
  written_bytes c' = Z.of_nat (length (buf c')) /\
  write_pos c' = write_pos (mkOut 4 [Byte.x00] 1 1) +
                 Z.of_nat (length (concat [[Byte.x01; Byte.x02]; [Byte.x03; Byte.x04; Byte.x05]])) /\
  bufsz (mkOut 4 [Byte.x00] 1 1) <= bufsz c' /\ written_bytes c' <= bufsz c'.
Proof.
  apply write_all_memory; [reflexivity | simpl; lia |].
  intros d [<-|[<-|[]]]; simpl; lia.
Defined.

(** A memory write of more than 2 * bufsz - written_bytes bytes grows the
    buffer only once, to 2 * bufsz, and then copies past its end:
    afterwards written_bytes exceeds bufsz. *)
Theorem out_write_packet_overflow data wres c :
  0 <= bufsz c ->
  2 * bufsz c - written_bytes c < Z.of_nat (length data) ->
  let '(_, c') := out_write_packet (-1) data wres c in
  bufsz c' = 2 * bufsz c /\ bufsz c' < written_bytes c'.
Proof.
  intros H0 H1. unfold out_write_packet. cbn [Z.ltb Z.compare].
  destruct (Z.ltb_spec (bufsz c - written_bytes c) (Z.of_nat (length data))); [|lia].
  simpl. lia.
Qed.

Lemma out_write_packet_overflow_witness :
  let '(_, c') := out_write_packet (-1) (repeat Byte.x00 9) 0 (mkOut 4 [] 0 0) in
  bufsz c' = 2 * bufsz (mkOut 4 [] 0 0) /\ bufsz c' < written_bytes c'.
Proof.
  apply out_write_packet_overflow; simpl; lia.
Defined.

Lemma strncmp_prefix (b s : string) :
  strncmp_eq (String.length b) s b = String.prefix b s.
Proof.
  revert s; induction b as [|y b IH]; intros [|x s]; simpl; auto.
  rewrite IH. destruct (Ascii.eqb_spec x y), (Ascii.ascii_dec y x); subst; simpl;
    auto; congruence.
Qed.

(** get_image_type decides by the first three characters alone, case
    sensitively: png/PNG, then jpg/JPG, then gif/GIF, else unknown; a
    string shorter than three characters is unknown. *)
Theorem get_image_type_prefix s :
  get_image_type s =
    if String.prefix "png" s || String.prefix "PNG" s then png_image
    else if String.prefix "jpg" s || String.prefix "JPG" s then jpg_image
    else if String.prefix "gif" s || String.prefix "GIF" s then gif_image
    else unknown_image.
Proof.
  unfold get_image_type. rewrite <- !(strncmp_prefix _ s). reflexivity.
Qed.

End TestProgFacts.

Module LegacyFacts.
Import Legacy GoIOFacts.

(** In the legacy dispatcher the output slot of (stream_index, seg_index)
    is (seg_index-1)*2 + stream_index, so two outputs opened on one session
    whose pairs give the same key share the slot: both opens return the
    same fd and writes to it go to the output opened last. *)
Theorem legacy_slot_collision handler si sg si' sg' t t' o1 o2 st h :
  get st handler = Some h ->
  legacy_type t = true -> legacy_type t' = true ->
  out_key si sg = out_key si' sg' ->
  let '(r1, st1) := AVPipeOpenOutput handler si sg t true (GoIO.OpenOk o1) st in
  let '(r2, st2) := AVPipeOpenOutput handler si' sg' t' true (GoIO.OpenOk o2) st1 in
  r1 = r2 /\ write_target st2 handler (out_key si sg) = Some o2.
Proof.
  intros Hh Ht Ht' Hk. unfold AVPipeOpenOutput. rewrite Ht, Ht'. cbn [negb]. rewrite Hh.
  unfold get at 1. cbn [gHandlers]. rewrite lookup_insert_eq. cbn.
  rewrite Hk. split; [reflexivity|].
  unfold write_target, get. cbn. rewrite lookup_insert_eq. cbn.
  rewrite lookup_insert_eq. reflexivity.
Qed.

Lemma legacy_slot_collision_witness :
  let st := snd (NewIOHandler true (GoIO.OpenOk 5) init_state) in
  let '(r1, st1) := AVPipeOpenOutput 1 2 1 GoIO.avpipe_video_segment true (GoIO.OpenOk 10) st in
  let '(r2, st2) := AVPipeOpenOutput 1 0 2 GoIO.avpipe_audio_segment true (GoIO.OpenOk 20) st1 in
  r1 = r2 /\ write_target st2 1 (out_key 2 1) = Some 20.
Proof.
  apply (legacy_slot_collision 1 2 1 0 2 _ _ 10 20 _ (mkIOHandler 5 ∅));
    vm_compute; reflexivity.
Defined.

Definition opens (op : bool * GoIO.open_result) : bool :=
  match op with (true, GoIO.OpenOk _) => true | _ => false end.

(** The legacy NewIOHandler takes a handle number only when the input
    opens: from a counter n >= 0, a sequence of registrations returns the
    consecutive handles n+1, ..., n+k for its k successful ones, and the
    counter ends at n+k. *)
Theorem run_new_consecutive ops : forall st,
  0 <= gHandleNum st ->
  gHandleNum st + Z.of_nat (length ops) <= INT64_MAX ->
  let '(hs, st') := run_new ops st in
  hs = map (fun j => gHandleNum st + Z.of_nat j)
           (seq 1 (length (List.filter opens ops))) /\
  gHandleNum st' = gHandleNum st + Z.of_nat (length (List.filter opens ops)).
Proof.
  induction ops as [|[b op] ops IH]; intros st H0 H1; [simpl; split; [reflexivity | lia]|].
  cbn [run_new]. cbn [length] in H1.
  destruct b; [destruct op as [inp|]|]; cbn [NewIOHandler negb opens List.filter].
  - rewrite wrap64_id by (unfold INT64_MAX in *; lia).
    specialize (IH (mkState (<[gHandleNum st + 1 := Some (mkIOHandler inp ∅)]>
                              (gHandlers st)) (gHandleNum st + 1))).
    cbn [gHandleNum] in IH.
    destruct (run_new ops _) as [hs st2]. destruct IH as [Hhs Hn]; [lia | lia |].
    destruct (Z.ltb_spec 0 (gHandleNum st + 1)); [|lia].
    cbn [length]. rewrite Hhs, Hn. split; [|lia].
    cbn [seq map app]. f_equal; try lia.
    rewrite <- (seq_shift _ 1), map_map. apply map_ext. intros j. lia.
  - specialize (IH st). destruct (run_new ops st) as [hs st2].
    destruct IH as [Hhs Hn]; [lia | lia |]. simpl. auto.
  - specialize (IH st). destruct (run_new ops st) as [hs st2].
    destruct IH as [Hhs Hn]; [lia | lia |]. simpl. auto.
Qed.

Lemma run_new_consecutive_witness :
  let ops := [(true, GoIO.OpenOk 1); (true, GoIO.OpenErr); (false, GoIO.OpenOk 2);
              (true, GoIO.OpenOk 3)] in
  let '(hs, st') := run_new ops init_state in
  hs = map (fun j => gHandleNum init_state + Z.of_nat j)
           (seq 1 (length (List.filter opens ops))) /\
  gHandleNum st' = gHandleNum init_state + Z.of_nat (length (List.filter opens ops)).
Proof.
  apply run_new_consecutive; vm_compute; [discriminate | discriminate].
Defined.

End LegacyFacts.

Module SlotFacts.
Import GoIO GoSlots GoIOFacts GoSlotsFacts.

(* every output slot of a live session is at most the counter gFd *)
Definition out_below (st : state) : Prop :=
  0 <= gFd st /\
  forall k h fd x, get st k = Some h -> outTable h !! fd = Some x -> fd <= gFd st.

Lemma get_insert_eq m k v x y :
  get (mkState (<[k := v]> m) x y) k = match v with Some h => Some h | None => None end.
Proof. unfold get; simpl. rewrite lookup_insert_eq. destruct v; reflexivity. Qed.

Lemma get_insert_ne m k j v x y :
  k <> j -> get (mkState (<[k := v]> m) x y) j = get (mkState m x y) j.
Proof. intros Hne. unfold get; simpl. rewrite lookup_insert_ne by exact Hne. reflexivity. Qed.

Lemma go_step_out_below o st :
  out_below st -> gFd st < INT64_MAX -> out_below (snd (go_step o st)).
Proof.
  intros [H0 Hb] Hn. unfold out_below. destruct o as [[os op | fd e] | h si sg t op]; simpl.
  - unfold NewIOHandler. destruct os; cbn [negb]; [|split; assumption].
    destruct op as [inp|]; simpl; (split; [assumption|]).
    + intros k a fd x Hk Hx. destruct (decide (wrap64 (gHandleNum st + 1) = k)) as [<-|Hne].
      * rewrite get_insert_eq in Hk. inversion Hk; subst. simpl in Hx.
        rewrite lookup_empty in Hx. discriminate.
      * rewrite get_insert_ne in Hk by exact Hne. exact (Hb k a fd x Hk Hx).
    + intros k a fd x Hk Hx. exact (Hb k a fd x Hk Hx).
  - unfold AVPipeCloseInput. destruct (get st fd) eqn:E; simpl; (split; [assumption|]);
      [|exact Hb].
    intros k a fd' x Hk Hx. destruct (decide (fd = k)) as [<-|Hne].
    + rewrite get_insert_eq in Hk. discriminate.
    + rewrite get_insert_ne in Hk by exact Hne. exact (Hb k a fd' x Hk Hx).
  - unfold AVPipeOpenOutput. destruct (get st h) as [a|] eqn:Ha; [|split; assumption].
    rewrite wrap64_id by (unfold INT64_MAX in *; lia).
    assert (Hb' : forall k a' fd x, get st k = Some a' -> outTable a' !! fd = Some x ->
                                    fd <= gFd st + 1)
      by (intros k a' fd x Hk Hx; specialize (Hb k a' fd x Hk Hx); lia).
    destruct (valid_type t); cbn [negb]; [destruct op as [o|]|]; simpl;
      (split; [lia|]); try exact Hb'.
    intros k a' fd x Hk Hx. destruct (decide (h = k)) as [<-|Hne].
    + rewrite get_insert_eq in Hk. inversion Hk; subst. simpl in Hx.
      destruct (decide (gFd st + 1 = fd)) as [<-|Hfd]; [lia|].
      rewrite lookup_insert_ne in Hx by exact Hfd. exact (Hb' h a fd x Ha Hx).
    + rewrite get_insert_ne in Hk by exact Hne. exact (Hb' k a' fd x Hk Hx).
Qed.

Lemma run_go_out_below ops : forall st,
  out_below st -> gFd st + Z.of_nat (length ops) <= INT64_MAX ->
  out_below (snd (run_go ops st)) /\
  gFd (snd (run_go ops st)) <= gFd st + Z.of_nat (length ops).
Proof.
  induction ops as [|o ops IH]; intros st Hw Hb; [simpl; split; [exact Hw | lia]|].
  cbn [length] in Hb. cbn [run_go].
  assert (Hs : gFd st <= gFd (snd (go_step o st)) <= gFd st + 1)
    by (destruct (go_step_slot o st ltac:(destruct Hw; lia)) as [[_ ?]|[_ ?]]; lia).
  pose proof (go_step_out_below o st Hw ltac:(lia)) as Hw1.
  destruct (go_step o st) as [r st1]. simpl in Hs, Hw1.
  destruct (IH st1 Hw1 ltac:(lia)) as [H1 H2].
  destruct (run_go ops st1) as [ids st2]. simpl in *. split; [exact H1 | lia].
Qed.

(** Output slots are bound to the session that opened them: after any
    sequence of registrations, closes and output opens from the initial
    state (without counter overflow), an output opened on a live session
    h1 is written through h1 with the backend's result, while a write to
    the same fd through another handle h2 panics when h2 is a live
    session and returns -1 otherwise. *)
Theorem slot_bound_to_session ops h1 h2 si sg t o n err :
  Z.of_nat (length ops) < INT64_MAX ->
  h1 <> h2 ->
  get (snd (run_go ops init_state)) h1 <> None ->
  valid_type t = true ->
  let st := snd (run_go ops init_state) in
  let '(fd, st') := AVPipeOpenOutput h1 si sg t (OpenOk o) st in
  AVPipeWriteOutput h1 fd n err st' = (if err then Ret (-1) else Ret (wrap32 n)) /\
  AVPipeWriteOutput h2 fd n err st' =
    match get st h2 with None => Ret (-1) | Some _ => Panic end.
Proof.
  intros Hl Hne Hlive Ht st.
  destruct (run_go_out_below ops init_state) as [[H0 Hb] Hg].
  { split; [simpl; lia|]. intros k a fd x Hk. discriminate. }
  { simpl. lia. }
  fold st in H0, Hb, Hg, Hlive. cbn [gFd init_state] in Hg.
  destruct (get st h1) as [a|] eqn:Ha; [|contradiction].
  unfold AVPipeOpenOutput. rewrite Ha.
  rewrite wrap64_id by (unfold INT64_MAX in *; lia).
  rewrite Ht. cbn [negb]. split.
  - unfold AVPipeWriteOutput. rewrite get_insert_eq. simpl.
    rewrite lookup_insert_eq. reflexivity.
  - unfold AVPipeWriteOutput. rewrite get_insert_ne by exact Hne.
    cbn [gHandlers gHandleNum gFd].
    change (get (mkState (gHandlers st) (gHandleNum st) (gFd st + 1)) h2) with (get st h2).
    destruct (get st h2) as [b|] eqn:Hb2; [|reflexivity].
    destruct (outTable b !! (gFd st + 1)) eqn:Ho; [|reflexivity].
    specialize (Hb h2 b _ _ Hb2 Ho). lia.
Qed.

Lemma slot_bound_to_session_witness :
  let ops := [GReg (OpNew true (OpenOk 1)); GReg (OpNew true (OpenOk 2));
              GOpen 2 0 1 avpipe_video_segment (OpenOk 9)] in
  let st := snd (run_go ops init_state) in
  let '(fd, st') := AVPipeOpenOutput 1 0 2 avpipe_video_segment (OpenOk 7) st in
  AVPipeWriteOutput 1 fd 188 false st' = (if false then Ret (-1) else Ret (wrap32 188)) /\
  AVPipeWriteOutput 2 fd 188 false st' =
    match get st 2 with None => Ret (-1) | Some _ => Panic end.
Proof.
  apply slot_bound_to_session;
    [vm_compute; reflexivity | discriminate | vm_compute; discriminate | reflexivity].
Defined.

End SlotFacts.

Module UdpZeroFacts.
Import UdpAdapter.

(** With a buffer of at least one byte, the udp branch of in_read_packet
    returns a 0-byte read exactly when no packet is partly read and the
    oldest queued datagram is empty; every other read that finds data
    returns at least one byte. *)
Theorem udp_zero_read b c :
  (1 <= b)%nat -> adapter_wf c ->
  (fst (in_read_packet b c) = Some [] <->
   cur_packet c = None /\ head (udp_channel c) = Some []).
Proof.
  intros Hb Hw. unfold in_read_packet, adapter_wf in *.
  destruct (cur_packet c) as [p|].
  - split; [|intros [H _]; discriminate].
    set (r := if Nat.ltb (length p - cur_pread c) b then (length p - cur_pread c)%nat else b).
    assert (Hr : (1 <= r <= length (skipn (cur_pread c) p))%nat).
    { rewrite length_skipn. unfold r.
      destruct (Nat.ltb_spec (length p - cur_pread c) b); lia. }
    intros H. destruct (Nat.eqb _ _); simpl in H; injection H as H;
      apply (f_equal (@length _)) in H; rewrite length_firstn in H; simpl in H; lia.
  - destruct (udp_channel c) as [|p q]; simpl; [split; [discriminate | intros [_ H]; discriminate]|].
    set (r := if Nat.ltb (length p) b then length p else b).
    assert (Hr : (r = length p \/ 1 <= r <= length p)%nat)
      by (unfold r; destruct (Nat.ltb_spec (length p) b); lia).
    split.
    + intros H. split; [reflexivity|].
      assert (Hl : length (firstn r p) = 0%nat)
        by (destruct (Nat.ltb r (length p)); simpl in H; injection H as H; rewrite H; reflexivity).
      rewrite length_firstn in Hl. destruct p; [reflexivity|]. simpl in *. lia.
    + intros [_ H]. injection H as ->. rewrite firstn_nil.
      destruct (Nat.ltb _ _); reflexivity.
Qed.

Lemma udp_zero_read_witness :
  fst (in_read_packet 4 (init [[]; [Byte.x01]])) = Some [] <->
  cur_packet (init [[]; [Byte.x01]]) = None /\ head (udp_channel (init [[]; [Byte.x01]])) = Some [].
Proof.
  apply udp_zero_read; [lia | exact I].
Defined.

End UdpZeroFacts.

Module LiveFacts.
Import LiveReader.

Lemma loop_recvs (ns : list Z) : forall br evs,
  readUdp_loop br (map (fun n => EvRecv n n false) ns ++ evs) =
  readUdp_loop (br + fold_right Z.add 0 ns) evs.
Proof.
  induction ns as [|n ns IH]; intros br evs; simpl; [rewrite Z.add_0_r; reflexivity|].
  rewrite Z.eqb_refl. simpl. rewrite IH. f_equal. lia.
Qed.

(** readUdp keeps looping, writer open, while every datagram is written
    in full; the first failed write ends it and closes the writer: a
    write error is returned and sent to ErrChannel, while a short write
    without error (bw <> n) returns nil, so nothing reaches ErrChannel. *)
Theorem readUdp_write_failure ns n bw werr evs :
  werr = true \/ bw <> n ->
  readUdp (map (fun n => EvRecv n n false) ns) = Waiting (fold_right Z.add 0 ns) /\
  readUdp (map (fun n => EvRecv n n false) ns ++ EvRecv n bw werr :: evs) =
    Returned (if werr then Some OtherErr else None) /\
  writer_closed (readUdp (map (fun n => EvRecv n n false) ns ++ EvRecv n bw werr :: evs)) = true /\
  err_channel (readUdp (map (fun n => EvRecv n n false) ns ++ EvRecv n bw werr :: evs)) =
    (if werr then [OtherErr] else []).
Proof.
  intros Hf. unfold readUdp.
  split; [rewrite <- (app_nil_r (map _ ns)), loop_recvs; reflexivity|].
  rewrite loop_recvs. simpl.
  destruct werr; [repeat split|].
  destruct Hf as [Hf|Hf]; [discriminate|].
  destruct (Z.eqb_spec bw n); [contradiction|]. repeat split.
Qed.

Lemma readUdp_write_failure_witness :
  readUdp (map (fun n => EvRecv n n false) [1316; 1316]) = Waiting (fold_right Z.add 0 [1316; 1316]) /\
  readUdp (map (fun n => EvRecv n n false) [1316; 1316] ++ EvRecv 1316 1000 false :: []) =
    Returned (if false then Some OtherErr else None) /\
  writer_closed (readUdp (map (fun n => EvRecv n n false) [1316; 1316] ++
                          EvRecv 1316 1000 false :: [])) = true /\
  err_channel (readUdp (map (fun n => EvRecv n n false) [1316; 1316] ++
                        EvRecv 1316 1000 false :: [])) =
    (if false then [OtherErr] else []).
Proof.
  apply readUdp_write_failure. right. discriminate.
Defined.

End LiveFacts.
